(** * Movie API: the data-access and response-shaping layer

    A shallow embedding of [movie-api/src/services/movies.service.ts],
    of the two SQLite stores it reads, and of the handlers of
    [movie-api/src/controllers/movies.controller.ts] that call it.

    - JavaScript values are a small inductive type; objects are
      association lists in property order, so that the object spread
      [{...row, genres: g, budget: b}] is modelled as it behaves.
    - Strings are sequences of characters; a Rocq [ascii] stands for one
      character of the stored text and of the request parameters, so the
      characters of the model are those up to 00FF.  Two conversions
      leave this range or the values of the model, and the properties
      that depend on them say so in a premise: a JSON text with a [\u]
      escape above 00FF ([narrow_escapes]), and the conversion to a
      string of an object that has a [toString] property of its own
      ([converts]).
    - A JavaScript number is a double.  The integers the code computes
      with (page numbers, offsets, stored integers) are [Z] and every
      operation on them rounds to the nearest double ([round53]); the
      average of the rating samples is the double nearest to their mean
      ([round_double]).  A number that is only passed on (a number in a
      stored JSON text, the rounded rating) is kept as the decimal
      [m / 10^k] it is written as.
    - The sqlite3 handles [moviesDb] and [ratingsDb] are a table together
      with a fault oracle: a query either fails with the store's error or
      is answered from the table the way SQLite answers that statement.
    - A service function returns the queries it issued, in order, and how
      its promise settled. *)

From Stdlib Require Import List String Ascii ZArith QArith Qabs Qround Lia Bool.
From Stdlib Require Import Permutation Sorted DecimalString DecimalZ.
From Stdlib Require OrderedTypeEx.
From Stdlib Require Import Lqa.
Import ListNotations.

Local Open Scope string_scope.
Local Open Scope Z_scope.

(** ** JavaScript values *)

Local Set Warnings "-register-all".

Inductive JsVal : Type :=
| JUndefined
| JNull
| JBool (b : bool)
| JNum (m : Z) (k : nat)          (* the number m / 10^k, see [mkNum] *)
| JStr (s : string)
| JArr (l : list JsVal)
| JObj (o : list (string * JsVal)).

Definition JsObject := list (string * JsVal).

(** Normal form of a decimal: no trailing zero after the point. *)
Fixpoint mkNum (m : Z) (k : nat) : JsVal :=
  match k with
  | O => JNum m 0
  | S k' => if (m mod 10 =? 0) then mkNum (m / 10) k' else JNum m k
  end.

Definition JInt (z : Z) : JsVal := JNum z 0.

(** [o.key]: the value of a property, [undefined] when it is absent. *)
Fixpoint obj_get (key : string) (o : JsObject) : JsVal :=
  match o with
  | [] => JUndefined
  | (k, v) :: o' => if String.eqb k key then v else obj_get key o'
  end.

(** Writing a property: an existing key keeps its place, a new key is
    appended.  This is what a later [key: v] in an object literal does to
    the properties copied by an earlier spread. *)
Fixpoint obj_set (key : string) (v : JsVal) (o : JsObject) : JsObject :=
  match o with
  | [] => [(key, v)]
  | (k, w) :: o' =>
      if String.eqb k key then (k, v) :: o' else (k, w) :: obj_set key v o'
  end.

Definition obj_keys (o : JsObject) : list string := map fst o.

(** [x !== null && x !== undefined] *)
Definition not_nullish (v : JsVal) : bool :=
  match v with
  | JNull | JUndefined => false
  | _ => true
  end.

(** ToBoolean *)
Definition truthy (v : JsVal) : bool :=
  match v with
  | JUndefined | JNull => false
  | JBool b => b
  | JNum m _ => negb (m =? 0)
  | JStr s => negb (String.eqb s EmptyString)
  | JArr _ | JObj _ => true
  end.

(** [a ?? b] *)
Definition nullish_coalesce (a b : JsVal) : JsVal :=
  if not_nullish a then a else b.

(** ** Numbers

    An integer-valued double is modelled by its value in [Z]; [2^1024]
    and [-2^1024], which are no doubles, stand for [Infinity] and
    [-Infinity]. *)

(** The double nearest to an integer: 53 significant bits, a tie goes to
    the even significand, and from [2^1024 - 2^970] on the result is
    infinite. *)
Definition round53 (z : Z) : Z :=
  let a := Z.abs z in
  let e := Z.log2 a - 52 in
  if e <=? 0 then z
  else
    let q := a / 2 ^ e in
    let r := a mod 2 ^ e in
    let half := 2 ^ (e - 1) in
    let q' := if (r <? half) || ((r =? half) && Z.even q) then q else q + 1 in
    Z.sgn z * Z.min (q' * 2 ^ e) (2 ^ 1024).

(** [a - b] and [a * b] on integer-valued numbers, for a finite [b]
    other than 0. *)
Definition Number_subtract (a b : Z) : Z := round53 (a - b).
Definition Number_multiply (a b : Z) : Z := round53 (a * b).

(** The double nearest to a rational: 53 significant bits, down to the
    last bit [2^-1074] of the subnormal numbers; a tie goes to the even
    significand, and [2^1024] stands for [Infinity] as above. *)
Definition round_double (x : Q) : Q :=
  let n := Z.abs (Qnum x) in
  let d := Zpos (Qden x) in
  if n =? 0 then 0%Q
  else
    (* the exponent [e] of the first bit: [2^e <= n / d < 2^(e + 1)] *)
    let l := Z.log2 n - Z.log2 d in
    let e := if (if 0 <=? l then 2 ^ l * d <=? n else d <=? n * 2 ^ (- l))
             then l else l - 1 in
    (* the exponent [t] of the last bit, and [n / d] in units of [2^t] *)
    let t := Z.max (e - 52) (- 1074) in
    let p := if 0 <=? t then n else n * 2 ^ (- t) in
    let q := if 0 <=? t then d * 2 ^ t else d in
    let f := p / q in
    let r := p mod q in
    let m := if (2 * r <? q) || ((2 * r =? q) && Z.even f) then f else f + 1 in
    let v := (inject_Z m * Qpower 2 t)%Q in
    let v' := if Qle_bool (inject_Z (2 ^ 1024)) v then inject_Z (2 ^ 1024)
              else v in
    if Qnum x <? 0 then (- v')%Q else v'.

(** ** Number to string *)

Definition digits_of_Z (z : Z) : string :=
  NilZero.string_of_int (Z.to_int z).

Fixpoint zeros (n : nat) : string :=
  match n with
  | O => EmptyString
  | S n' => String "0" (zeros n')
  end.

(** Of the integers that round to the double [d > 0], the one with the
    fewest significant digits; of several, the nearest to [d], and of two
    as near, the one with the even last significant digit.  [j] is the
    number of trailing zeros tried first. *)
Fixpoint shortest_digits (j : nat) (d : Z) : Z :=
  let u := 10 ^ Z.of_nat j in
  let lo := d / u * u in
  let hi := lo + u in
  let ok_lo := (0 <? lo) && (round53 lo =? d) in
  let ok_hi := round53 hi =? d in
  if ok_lo && ok_hi then
    if d - lo <? hi - d then lo
    else if hi - d <? d - lo then hi
    else if Z.even (lo / u) then lo else hi
  else if ok_lo then lo
  else if ok_hi then hi
  else match j with
       | O => d
       | S j' => shortest_digits j' d
       end.

(** [x] without its trailing zeros, for [x > 0]. *)
Fixpoint significand (fuel : nat) (x : Z) : Z :=
  match fuel with
  | O => x
  | S fuel' => if x mod 10 =? 0 then significand fuel' (x / 10) else x
  end.

(** The exponent notation of an integer [x >= 10^21]: [d.ddde+n], or
    [de+n] for one significant digit. *)
Definition exponent_notation (x : Z) : string :=
  let n := String.length (digits_of_Z x) in
  let e := "e+" ++ digits_of_Z (Z.of_nat n - 1) in
  match digits_of_Z (significand n x) with
  | String c EmptyString => String c e
  | String c rest => String c ("." ++ rest ++ e)
  | EmptyString => e
  end.

(** Number::toString of the double nearest to the integer [z]. *)
Definition integer_toString (z : Z) : string :=
  let d := round53 z in
  let a := Z.abs d in
  if a =? 0 then "0"
  else
    (if d <? 0 then "-" else EmptyString)
      ++ (if a =? 2 ^ 1024 then "Infinity"
          else
            let x := shortest_digits (Z.to_nat (Z.log2 a)) a in
            if x <? 10 ^ 21 then digits_of_Z x else exponent_notation x).

(** Number::toString: an integer prints as [integer_toString] says; a
    decimal [m / 10^k] that has fraction digits prints as it is written
    (the service converts no such number to a string). *)
Definition Number_toString (m : Z) (k : nat) : string :=
  match k with
  | O => integer_toString m
  | S _ =>
      let p := 10 ^ Z.of_nat k in
      let a := Z.abs m in
      let frac := digits_of_Z (a mod p) in
      (if m <? 0 then "-" else EmptyString)
        ++ digits_of_Z (a / p) ++ "."
        ++ zeros (k - String.length frac) ++ frac
  end.

Fixpoint join (sep : string) (l : list string) : string :=
  match l with
  | [] => EmptyString
  | [s] => s
  | s :: l' => s ++ sep ++ join sep l'
  end.

(** ToString.  An object is taken without a [toString] property of its
    own (with one, which a query string can give it, the conversion throws
    a TypeError). *)
Fixpoint ToString (v : JsVal) : string :=
  match v with
  | JUndefined => "undefined"
  | JNull => "null"
  | JBool true => "true"
  | JBool false => "false"
  | JNum m k => Number_toString m k
  | JStr s => s
  | JArr l =>
      join "," (map (fun x => match x with
                              | JUndefined | JNull => EmptyString
                              | _ => ToString x
                              end) l)
  | JObj _ => "[object Object]"
  end.

(** The template literal [`$${v}`]. *)
Definition dollar (v : JsVal) : string := "$" ++ ToString v.

(** ** Errors *)

(** [StoreError]: the error object a sqlite3 call hands to its callback.
    [SyntaxError]: what [JSON.parse] throws, with the rejected text. *)
Inductive JsError : Type :=
| StoreError (message : string)
| SyntaxError (text : string).

(** ** JSON.parse *)

Definition is_ws (c : ascii) : bool :=
  match c with
  | " "%char | "009"%char | "010"%char | "013"%char => true
  | _ => false
  end.

Fixpoint skip_ws (s : string) : string :=
  match s with
  | String c r => if is_ws c then skip_ws r else s
  | EmptyString => s
  end.

Fixpoint strip_prefix (p s : string) : option string :=
  match p, s with
  | EmptyString, _ => Some s
  | String a p', String b s' => if Ascii.eqb a b then strip_prefix p' s' else None
  | String _ _, EmptyString => None
  end.

Definition digit_val (c : ascii) : option Z :=
  let n := Z.of_N (N_of_ascii c) in
  if (48 <=? n) && (n <=? 57) then Some (n - 48) else None.

Definition hex_val (c : ascii) : option Z :=
  let n := Z.of_N (N_of_ascii c) in
  if (48 <=? n) && (n <=? 57) then Some (n - 48)
  else if (65 <=? n) && (n <=? 70) then Some (n - 55)
  else if (97 <=? n) && (n <=? 102) then Some (n - 87)
  else None.

Definition char_of_code (n : Z) : ascii := ascii_of_N (Z.to_N n).

Definition dquote : ascii := "034"%char.

(** The characters of a string literal after its opening quote, up to the
    closing quote.  An escape [\uXXXX] above 00FF has no character
    in this model and is not accepted; the texts without such an escape
    are those of [narrow_escapes]. *)
Fixpoint parse_string_body (s : string) : option (string * string) :=
  let cons c r := option_map (fun '(t, rest) => (String c t, rest)) r in
  match s with
  | EmptyString => None
  | String c r =>
      if Ascii.eqb c dquote then Some (EmptyString, r)
      else if Ascii.eqb c "\" then
        match r with
        | EmptyString => None
        | String e r' =>
            if Ascii.eqb e dquote || Ascii.eqb e "\" || Ascii.eqb e "/"
            then cons e (parse_string_body r')
            else if Ascii.eqb e "b" then cons "008"%char (parse_string_body r')
            else if Ascii.eqb e "f" then cons "012"%char (parse_string_body r')
            else if Ascii.eqb e "n" then cons "010"%char (parse_string_body r')
            else if Ascii.eqb e "r" then cons "013"%char (parse_string_body r')
            else if Ascii.eqb e "t" then cons "009"%char (parse_string_body r')
            else if Ascii.eqb e "u" then
              match r' with
              | String h1 (String h2 (String h3 (String h4 r''))) =>
                  match hex_val h1, hex_val h2, hex_val h3, hex_val h4 with
                  | Some 0, Some 0, Some x, Some y =>
                      cons (char_of_code (16 * x + y)) (parse_string_body r'')
                  | _, _, _, _ => None
                  end
              | _ => None
              end
            else None
        end
      else if (N_of_ascii c <? 32)%N then None
      else cons c (parse_string_body r)
  end.

(** The longest run of decimal digits at the head of [s]: its value, its
    length and the rest. *)
Fixpoint take_digits (acc : Z) (n : nat) (s : string) : Z * nat * string :=
  match s with
  | String c r =>
      match digit_val c with
      | Some d => take_digits (10 * acc + d) (S n) r
      | None => (acc, n, s)
      end
  | EmptyString => (acc, n, s)
  end.

(** The integer part of a JSON number: [0], or digits with no leading
    zero. *)
Definition parse_int_part (s : string) : option (Z * string) :=
  match s with
  | EmptyString => None
  | String c r =>
      if Ascii.eqb c "0" then Some (0, r)
      else match take_digits 0 0 s with
           | (_, O, _) => None
           | (v, S _, r') => Some (v, r')
           end
  end.

Definition parse_frac_part (int : Z) (s : string) : option (Z * nat * string) :=
  match s with
  | EmptyString => Some (int, O, s)
  | String c r =>
      if Ascii.eqb c "." then
        match take_digits int 0 r with
        | (_, O, _) => None
        | (v, S n, r') => Some (v, S n, r')
        end
      else Some (int, O, s)
  end.

Definition parse_exp_digits (sign : Z) (s : string) : option (Z * string) :=
  match take_digits 0 0 s with
  | (_, O, _) => None
  | (v, S _, r) => Some (sign * v, r)
  end.

Definition parse_exp_part (s : string) : option (Z * string) :=
  match s with
  | EmptyString => Some (0, s)
  | String c r =>
      if Ascii.eqb c "e" || Ascii.eqb c "E" then
        match r with
        | EmptyString => None
        | String d r' =>
            if Ascii.eqb d "+" then parse_exp_digits 1 r'
            else if Ascii.eqb d "-" then parse_exp_digits (-1) r'
            else parse_exp_digits 1 r
        end
      else Some (0, s)
  end.

Definition parse_sign (s : string) : Z * string :=
  match s with
  | EmptyString => (1, s)
  | String c r => if Ascii.eqb c "-" then (-1, r) else (1, s)
  end.

Definition parse_number (s : string) : option (JsVal * string) :=
  let '(sign, s1) := parse_sign s in
  match parse_int_part s1 with
  | None => None
  | Some (i, s2) =>
      match parse_frac_part i s2 with
      | None => None
      | Some (m, fd, s3) =>
          match parse_exp_part s3 with
          | None => None
          | Some (e, s4) =>
              let e' := e - Z.of_nat fd in
              Some (if 0 <=? e' then JNum (sign * m * 10 ^ e') 0
                    else mkNum (sign * m) (Z.to_nat (- e')), s4)
          end
      end
  end.

(** An array index: the decimal numeral, with no leading zero, of an
    integer from 0 to [2^32 - 2]. *)
Definition array_index (key : string) : option Z :=
  match key with
  | String "0" (String _ _) => None
  | _ =>
      match take_digits 0 0 key with
      | (v, S _, EmptyString) => if v <=? 4294967294 then Some v else None
      | _ => None
      end
  end.

(** A new array index goes among the array indices, which are the first
    keys of an object and in ascending order. *)
Fixpoint insert_index (i : Z) (key : string) (v : JsVal) (o : JsObject)
  : JsObject :=
  match o with
  | [] => [(key, v)]
  | (k, w) :: o' =>
      match array_index k with
      | Some j =>
          if j <? i then (k, w) :: insert_index i key v o' else (key, v) :: o
      | None => (key, v) :: o
      end
  end.

(** The member [key: v] of an object in a JSON text: a key that the
    object has keeps its place and gets the new value; of the new keys,
    an array index goes among the array indices and any other key goes
    last. *)
Definition define_member (key : string) (v : JsVal) (o : JsObject) : JsObject :=
  if existsb (String.eqb key) (obj_keys o) then obj_set key v o
  else match array_index key with
       | Some i => insert_index i key v o
       | None => obj_set key v o
       end.

(** The next character after white space. *)
Definition next_char (s : string) : option (ascii * string) :=
  match skip_ws s with
  | EmptyString => None
  | String c r => Some (c, r)
  end.

(** The three parsers of the grammar (value, rest of an array, rest of
    an object), each given the parsers it calls. *)
Definition Parser : Type := string -> option (JsVal * string).

Definition parse_value_step (elements : list JsVal -> Parser)
    (members : JsObject -> Parser) : Parser := fun s =>
  match next_char s with
  | None => None
  | Some (c, r) =>
      if Ascii.eqb c "n" then option_map (pair JNull) (strip_prefix "ull" r)
      else if Ascii.eqb c "t" then
        option_map (pair (JBool true)) (strip_prefix "rue" r)
      else if Ascii.eqb c "f" then
        option_map (pair (JBool false)) (strip_prefix "alse" r)
      else if Ascii.eqb c dquote then
        option_map (fun '(t, rest) => (JStr t, rest)) (parse_string_body r)
      else if Ascii.eqb c "[" then
        match next_char r with
        | None => elements [] r
        | Some (c', r') =>
            if Ascii.eqb c' "]" then Some (JArr [], r') else elements [] r
        end
      else if Ascii.eqb c "{" then
        match next_char r with
        | None => members [] r
        | Some (c', r') =>
            if Ascii.eqb c' "}" then Some (JObj [], r') else members [] r
        end
      else parse_number (String c r)
  end.

Definition parse_elements_step (value : Parser)
    (elements : list JsVal -> Parser) (acc : list JsVal) : Parser := fun s =>
  match value s with
  | None => None
  | Some (v, r) =>
      match next_char r with
      | None => None
      | Some (c, r') =>
          if Ascii.eqb c "," then elements (acc ++ [v])%list r'
          else if Ascii.eqb c "]" then Some (JArr (acc ++ [v])%list, r')
          else None
      end
  end.

Definition parse_members_step (value : Parser)
    (members : JsObject -> Parser) (acc : JsObject) : Parser := fun s =>
  match next_char s with
  | None => None
  | Some (q, r) =>
      if Ascii.eqb q dquote then
        match parse_string_body r with
        | None => None
        | Some (key, r1) =>
            match next_char r1 with
            | None => None
            | Some (colon, r2) =>
                if Ascii.eqb colon ":" then
                  match value r2 with
                  | None => None
                  | Some (v, r3) =>
                      match next_char r3 with
                      | None => None
                      | Some (c, r4) =>
                          if Ascii.eqb c ","
                          then members (define_member key v acc) r4
                          else if Ascii.eqb c "}"
                          then Some (JObj (define_member key v acc), r4)
                          else None
                      end
                  end
                else None
            end
        end
      else None
  end.

(** The recursion, on fuel. *)
Fixpoint parse_value (fuel : nat) : Parser :=
  match fuel with
  | O => fun _ => None
  | S fuel' =>
      parse_value_step (parse_elements fuel') (parse_members fuel')
  end

with parse_elements (fuel : nat) (acc : list JsVal) : Parser :=
  match fuel with
  | O => fun _ => None
  | S fuel' =>
      parse_elements_step (parse_value fuel') (parse_elements fuel') acc
  end

with parse_members (fuel : nat) (acc : JsObject) : Parser :=
  match fuel with
  | O => fun _ => None
  | S fuel' =>
      parse_members_step (parse_value fuel') (parse_members fuel') acc
  end.

(** [JSON.parse(text)], on text: one value between optional white space.
    The parser takes a character of the text at least every second step
    of its recursion, so the fuel given here is never used up
    ([parse_value_fuel]). *)
Definition JSON_parse_text (text : string) : JsError + JsVal :=
  match parse_value (2 * String.length text + 2) text with
  | Some (v, rest) =>
      match skip_ws rest with
      | EmptyString => inr v
      | _ => inl (SyntaxError text)
      end
  | None => inl (SyntaxError text)
  end.

(** [JSON.parse(v)]: the argument is converted to a string first, so
    [JSON.parse(null)] parses the text [null]. *)
Definition JSON_parse (v : JsVal) : JsError + JsVal :=
  JSON_parse_text (ToString v).

(** ** The two stores *)

(** A row of the [movies] table ([MovieRow] in movie.interface.ts).
    [None] is SQL NULL. *)
Record MovieRow : Type := {
  movieId_column : Z;
  imdbId : string;
  title : string;
  overview : option string;
  productionCompanies : option string;
  releaseDate : option string;
  budget : option Z;
  revenue : option Z;
  runtime : option Z;
  language : string;
  genres : option string;
  status : option string
}.

(** A row of the [ratings] table: one rating sample of a movie. *)
Record RatingSample : Type := {
  rating_movieId : Z;
  rating : Q
}.

Inductive SortOrder : Type := asc | desc.

(** The statements the service prepares, with their bound parameters. *)
Inductive CatalogQuery : Type :=
| SelectPage (limit offset : Z)
    (* SELECT imdbId, title, genres, releaseDate, budget FROM movies
       LIMIT ? OFFSET ? *)
| SelectByImdbId (id : string)
    (* SELECT movieId, imdbId, title, overview, releaseDate, budget,
       runtime, language, genres, productionCompanies FROM movies
       WHERE imdbId = ? *)
| SelectByYear (year : string) (order : SortOrder) (limit offset : Z)
    (* SELECT imdbId, title, genres, releaseDate, budget FROM movies
       WHERE substr(releaseDate, 1, 4) = ? ORDER BY releaseDate ASC|DESC
       LIMIT ? OFFSET ? *)
| SelectByGenre (pattern : string) (limit offset : Z).
    (* SELECT m.imdbId, m.title, m.genres, m.releaseDate, m.budget
       FROM movies m WHERE m.genres LIKE ? LIMIT ? OFFSET ? *)

Inductive RatingQuery : Type :=
| SelectAvgRating (id : JsVal).
    (* SELECT AVG(rating) as averageRating FROM ratings WHERE movieId = ? *)

Inductive Query : Type :=
| OnMovies (q : CatalogQuery)
| OnRatings (q : RatingQuery).

(** A store: its table, and for each statement whether running it fails
    (I/O error, corrupt file, a LIMIT or OFFSET that is no 64-bit integer,
    ...) and with which error.  A database file has at most [2^32] pages
    of at most [2^16] bytes, so a table has fewer than [2^48] rows. *)
Record MoviesDb : Type := {
  movies : list MovieRow;
  movies_fault : CatalogQuery -> option JsError;
  movies_fit : (Z.of_nat (List.length movies) <? 2 ^ 48) = true
}.

Record RatingsDb : Type := {
  ratings : list RatingSample;
  ratings_fault : RatingQuery -> option JsError
}.

(** *** Column values as the driver hands them to JavaScript *)

Definition of_text (t : option string) : JsVal :=
  match t with Some s => JStr s | None => JNull end.

(** A stored integer has 64 bits; the driver hands JavaScript the
    double nearest to it. *)
Definition of_integer (i : option Z) : JsVal :=
  match i with Some z => JInt (round53 z) | None => JNull end.

(** The [movieId] of a row, as JavaScript has it. *)
Definition movieId (r : MovieRow) : Z := round53 (movieId_column r).

(** The result row of the three list statements. *)
Definition list_columns (r : MovieRow) : JsObject :=
  [ ("imdbId", JStr (imdbId r));
    ("title", JStr (title r));
    ("genres", of_text (genres r));
    ("releaseDate", of_text (releaseDate r));
    ("budget", of_integer (budget r)) ].

(** The result row of the detail statement. *)
Definition detail_columns (r : MovieRow) : JsObject :=
  [ ("movieId", JInt (movieId r));
    ("imdbId", JStr (imdbId r));
    ("title", JStr (title r));
    ("overview", of_text (overview r));
    ("releaseDate", of_text (releaseDate r));
    ("budget", of_integer (budget r));
    ("runtime", of_integer (runtime r));
    ("language", JStr (language r));
    ("genres", of_text (genres r));
    ("productionCompanies", of_text (productionCompanies r)) ].

(** *** LIMIT and OFFSET *)

(** A negative OFFSET counts as zero, a negative LIMIT as no limit. *)
Definition limit_offset {A} (limit offset : Z) (l : list A) : list A :=
  let rest := skipn (Z.to_nat offset) l in
  if limit <? 0 then rest else firstn (Z.to_nat limit) rest.

(** *** LIKE *)

(** SQLite folds the case of the letters A-Z and a-z, and of no other
    character, when LIKE compares two characters. *)
Definition sqlite_tolower (c : ascii) : ascii :=
  let n := N_of_ascii c in
  if ((65 <=? n) && (n <=? 90))%N then ascii_of_N (n + 32) else c.

Definition like_char (p c : ascii) : bool :=
  Ascii.eqb (sqlite_tolower p) (sqlite_tolower c).

(** The comparison of a pattern with a text, no ESCAPE clause: [%]
    stands for any run of characters, [_] for any one character, and the
    pattern has to cover the whole text. *)
Fixpoint patternCompare (pattern text : string) : bool :=
  match pattern with
  | EmptyString =>
      match text with EmptyString => true | _ => false end
  | String "%"%char p =>
      (fix any (t : string) : bool :=
         patternCompare p t || match t with
                               | EmptyString => false
                               | String _ t' => any t'
                               end) text
  | String "_"%char p =>
      match text with
      | EmptyString => false
      | String _ t => patternCompare p t
      end
  | String c p =>
      match text with
      | EmptyString => false
      | String d t => like_char c d && patternCompare p t
      end
  end.

(** The characters of a string before its first NUL character. *)
Fixpoint upto_nul (s : string) : string :=
  match s with
  | EmptyString => EmptyString
  | String c r =>
      if Ascii.eqb c "000" then EmptyString else String c (upto_nul r)
  end.

(** [text LIKE pattern]: SQLite reads both as NUL-terminated strings, so
    the comparison ends at the first NUL character of each. *)
Definition like (pattern text : string) : bool :=
  patternCompare (upto_nul pattern) (upto_nul text).

(** [col LIKE ?] on a nullable column: NULL never matches. *)
Definition like_column (pattern : string) (col : option string) : bool :=
  match col with
  | Some text => like pattern text
  | None => false
  end.

(** *** substr(releaseDate, 1, 4) = ? *)

Definition substr_1_4 (col : option string) : option string :=
  option_map (substring 0 4) col.

Definition year_matches (year : string) (r : MovieRow) : bool :=
  match substr_1_4 (releaseDate r) with
  | Some y => String.eqb y year
  | None => false
  end.

(** *** ORDER BY releaseDate *)

(** The BINARY collation on a nullable text column: NULL first, then
    texts in lexicographic order of their characters. *)
Definition text_le (a b : option string) : bool :=
  match a, b with
  | None, _ => true
  | Some _, None => false
  | Some x, Some y => String.leb x y
  end.

Definition date_le (o : SortOrder) (a b : MovieRow) : bool :=
  match o with
  | asc => text_le (releaseDate a) (releaseDate b)
  | desc => text_le (releaseDate b) (releaseDate a)
  end.

Fixpoint insert_sorted {A} (le : A -> A -> bool) (x : A) (l : list A) : list A :=
  match l with
  | [] => [x]
  | y :: l' => if le x y then x :: l else y :: insert_sorted le x l'
  end.

(** The sorter; rows with equal keys come out in some order, here the
    one an insertion sort gives. *)
Definition order_by {A} (le : A -> A -> bool) (l : list A) : list A :=
  fold_right (insert_sorted le) [] l.

(** *** AVG(rating) *)

Definition Qsum (l : list Q) : Q := fold_right Qplus 0%Q l.

(** NULL over no rows, else the sum over the count, a division of two
    doubles.  The sum is taken exactly: the ratings are multiples of 1/2
    far below [2^53], and adding such doubles has no rounding error. *)
Definition sql_avg (l : list Q) : option Q :=
  match l with
  | [] => None
  | _ => Some (round_double (Qsum l / inject_Z (Z.of_nat (List.length l))))
  end.

(** [movieId = ?] for an INTEGER column and a bound JavaScript value. *)
Definition int_eq_param (col : Z) (param : JsVal) : bool :=
  match param with
  | JNum m O => col =? m
  | _ => false
  end.

Definition samples_of (id : JsVal) (t : list RatingSample) : list Q :=
  map rating (filter (fun s => int_eq_param (rating_movieId s) id) t).

(** *** Answers *)

(** The table rows a statement selects, in result order. *)
Definition select_rows (t : list MovieRow) (q : CatalogQuery) : list MovieRow :=
  match q with
  | SelectPage limit offset =>
      limit_offset limit offset t
  | SelectByImdbId id =>
      filter (fun r => String.eqb (imdbId r) id) t
  | SelectByYear year o limit offset =>
      limit_offset limit offset
        (order_by (date_le o) (filter (year_matches year) t))
  | SelectByGenre pattern limit offset =>
      limit_offset limit offset
        (filter (fun r => like_column pattern (genres r)) t)
  end.

(** The columns of its result rows. *)
Definition columns (q : CatalogQuery) : MovieRow -> JsObject :=
  match q with
  | SelectByImdbId _ => detail_columns
  | _ => list_columns
  end.

(** [all]: every result row of a statement, in order. *)
Definition answer_all (t : list MovieRow) (q : CatalogQuery) : list JsObject :=
  map (columns q) (select_rows t q).

(** [get]: the first result row, [None] ([undefined]) when there is
    none. *)
Definition answer_get (t : list MovieRow) (q : CatalogQuery) : option JsObject :=
  hd_error (answer_all t q).

(** The row of the aggregate: its one column [averageRating]. *)
Record AvgRow : Type := { averageRating : option Q }.

Definition answer_avg (t : list RatingSample) (q : RatingQuery) : option AvgRow :=
  match q with
  | SelectAvgRating id => Some {| averageRating := sql_avg (samples_of id t) |}
  end.

(** ** Promises and callbacks *)

(** How the promise of a service call ends.  [Uncaught e]: the body of a
    database callback threw [e]; the exception leaves through sqlite3
    into the event loop and the promise is never settled. *)
Inductive Settled (A : Type) : Type :=
| Resolved (a : A)
| Rejected (e : JsError)
| Uncaught (e : JsError).

Arguments Resolved {A} a.
Arguments Rejected {A} e.
Arguments Uncaught {A} e.

(** A run: the statements issued, in order, and the end of the promise. *)
Definition Run (A : Type) : Type := list Query * Settled A.

Definition resolve {A} (a : A) : Run A := ([], Resolved a).
Definition reject {A} (e : JsError) : Run A := ([], Rejected e).
Definition throw {A} (e : JsError) : Run A := ([], Uncaught e).

Definition issued {A} (r : Run A) : list Query := fst r.
Definition settled {A} (r : Run A) : Settled A := snd r.

(** Expressions that may throw. *)
Definition Eval (A : Type) : Type := (JsError + A)%type.

Definition bind {A B} (x : Eval A) (f : A -> Eval B) : Eval B :=
  match x with
  | inl e => inl e
  | inr a => f a
  end.

Notation "x <- e ;; k" := (bind e (fun x => k))
  (at level 61, e at next level, right associativity).

(** [rows.map(f)] for an [f] that may throw: the first exception ends
    the loop. *)
Fixpoint array_map {A B} (f : A -> Eval B) (rows : list A) : Eval (list B) :=
  match rows with
  | [] => inr []
  | r :: rows' =>
      b <- f r ;;
      bs <- array_map f rows' ;;
      inr (b :: bs)
  end.

(** The rest of a callback after an expression: an exception is
    uncaught, a value goes on. *)
Definition eval_then {A B} (x : Eval A) (k : A -> Run B) : Run B :=
  match x with
  | inl e => throw e
  | inr a => k a
  end.

(** [parseFloat(x.toFixed(1))] for a double [x].  [toFixed(1)] takes the
    integer [n] for which [n / 10] is closest to [|x|], the larger one of
    two, and writes the sign of [x], [n / 10] and one fraction digit;
    [parseFloat] reads that numeral back. *)
Definition parseFloat_toFixed1 (x : Q) : JsVal :=
  let n := Qfloor (Qabs x * 10 + (1 # 2))%Q in
  mkNum (if (Qnum x <? 0) then - n else n) 1.

(** ToBoolean of a number of the rating store. *)
Definition truthyQ (x : Q) : bool := negb (Qnum x =? 0).

(** ** The service: movies.service.ts *)

(** The arrow function of [rows.map] in [getPaginatedMovies]. *)
Definition page_item (movie : JsObject) : Eval JsObject :=
  g <- JSON_parse (obj_get "genres" movie) ;;
  inr (obj_set "budget"
         (if not_nullish (obj_get "budget" movie)
          then JStr (dollar (obj_get "budget" movie))
          else JStr "N/A")
         (obj_set "genres" g movie)).

(** The arrow function of [rows.map] in [getMoviesByYear]. *)
Definition year_item (row : JsObject) : Eval JsObject :=
  g <- (if truthy (obj_get "genres" row)
        then JSON_parse (obj_get "genres" row)
        else inr (JArr [])) ;;
  inr (obj_set "budget"
         (if not_nullish (obj_get "budget" row)
          then JStr (dollar (obj_get "budget" row))
          else JStr "N/A")
         (obj_set "genres" g row)).

(** The arrow function of [rows.map] in [getMoviesByGenre]. *)
Definition genre_item (row : JsObject) : Eval JsObject :=
  g <- (if truthy (obj_get "genres" row)
        then JSON_parse (obj_get "genres" row)
        else inr (JArr [])) ;;
  inr (obj_set "budget"
         (if not_nullish (obj_get "budget" row)
          then JStr (dollar (obj_get "budget" row))
          else JStr "N/A")
         (obj_set "genres" g row)).

(** [const movie: MovieDetails = { ... }] in [getMovieDetailsByImdbId];
    the properties are evaluated in the order they are written. *)
Definition movie_details (row : JsObject) (ratingRow : option AvgRow)
  : Eval JsObject :=
  let budget :=
    if not_nullish (obj_get "budget" row)
    then JStr (dollar (obj_get "budget" row))
    else JStr "N/A" in
  let runtime := nullish_coalesce (obj_get "runtime" row) JNull in
  let averageRating :=
    match ratingRow with
    | Some {| averageRating := Some avg |} =>
        if truthyQ avg then parseFloat_toFixed1 avg else JNull
    | _ => JNull
    end in
  g <- (if truthy (obj_get "genres" row)
        then JSON_parse (obj_get "genres" row)
        else inr (JArr [])) ;;
  pc <- (if truthy (obj_get "productionCompanies" row)
         then JSON_parse (obj_get "productionCompanies" row)
         else inr (JArr [])) ;;
  inr [ ("imdbId", obj_get "imdbId" row);
        ("title", obj_get "title" row);
        ("description", obj_get "overview" row);
        ("releaseDate", obj_get "releaseDate" row);
        ("budget", budget);
        ("runtime", runtime);
        ("averageRating", averageRating);
        ("genres", g);
        ("originalLanguage", obj_get "language" row);
        ("productionCompanies", pc) ].

Section Service.

Variable moviesDb : MoviesDb.
Variable ratingsDb : RatingsDb.

(** [moviesDb.all(query, params, callback)] *)
Definition moviesDb_all {A} (query : CatalogQuery)
    (callback : option JsError -> list JsObject -> Run A) : Run A :=
  let '(log, end_) :=
    match movies_fault moviesDb query with
    | Some err => callback (Some err) []
    | None => callback None (answer_all (movies moviesDb) query)
    end in
  (OnMovies query :: log, end_).

(** [moviesDb.get(query, params, callback)] *)
Definition moviesDb_get {A} (query : CatalogQuery)
    (callback : option JsError -> option JsObject -> Run A) : Run A :=
  let '(log, end_) :=
    match movies_fault moviesDb query with
    | Some err => callback (Some err) None
    | None => callback None (answer_get (movies moviesDb) query)
    end in
  (OnMovies query :: log, end_).

(** [ratingsDb.get(query, params, callback)] *)
Definition ratingsDb_get {A} (query : RatingQuery)
    (callback : option JsError -> option AvgRow -> Run A) : Run A :=
  let '(log, end_) :=
    match ratings_fault ratingsDb query with
    | Some err => callback (Some err) None
    | None => callback None (answer_avg (ratings ratingsDb) query)
    end in
  (OnRatings query :: log, end_).

Definition getPaginatedMovies (page : Z) : Run (list JsObject) :=
  let pageSize := 50 in
  let offset := Number_multiply (Number_subtract page 1) pageSize in
  moviesDb_all (SelectPage pageSize offset) (fun err rows =>
    match err with
    | Some e => reject e
    | None =>
        eval_then (array_map page_item rows)
          (fun formatted => resolve formatted)
    end).

Definition getMovieDetailsByImdbId (imdbId : string) : Run (option JsObject) :=
  moviesDb_get (SelectByImdbId imdbId) (fun err row =>
    match err with
    | Some e => reject e
    | None =>
        match row with
        | None => resolve None
        | Some row =>
            let movieId := obj_get "movieId" row in
            ratingsDb_get (SelectAvgRating movieId) (fun ratingErr ratingRow =>
              match ratingErr with
              | Some e => reject e
              | None =>
                  eval_then (movie_details row ratingRow)
                    (fun movie => resolve (Some movie))
              end)
        end
    end).

Definition getMoviesByYear (year : string) (page : Z) (sortOrder : SortOrder)
  : Run (list JsObject) :=
  let limit := 50 in
  let offset := Number_multiply (Number_subtract page 1) limit in
  moviesDb_all (SelectByYear year sortOrder limit offset) (fun err rows =>
    match err with
    | Some e => reject e
    | None =>
        eval_then (array_map year_item rows) (fun movies => resolve movies)
    end).

Definition getMoviesByGenre (genre : string) (page : Z) : Run (list JsObject) :=
  let limit := 50 in
  let offset := Number_multiply (Number_subtract page 1) limit in
  let genreMatch := "%" ++ genre ++ "%" in
  moviesDb_all (SelectByGenre genreMatch limit offset) (fun err rows =>
    match err with
    | Some e => reject e
    | None =>
        eval_then (array_map genre_item rows) (fun movies => resolve movies)
    end).

End Service.

(** * The HTTP layer: movies.controller.ts *)

(** ** parseInt and toLowerCase *)

(** White space that [parseInt] skips, among the characters of this
    model: tab, line feed, vertical tab, form feed, carriage return, space
    and no-break space. *)
Definition is_js_space (c : ascii) : bool :=
  let n := N_of_ascii c in
  ((9 <=? n) && (n <=? 13) || (n =? 32) || (n =? 160))%N.

Fixpoint trim_start (s : string) : string :=
  match s with
  | String c r => if is_js_space c then trim_start r else s
  | EmptyString => s
  end.

(** The value and the number of the hexadecimal digits at the head of
    [s]. *)
Fixpoint take_hex_digits (acc : Z) (n : nat) (s : string) : Z * nat :=
  match s with
  | String c r =>
      match hex_val c with
      | Some d => take_hex_digits (16 * acc + d) (S n) r
      | None => (acc, n)
      end
  | EmptyString => (acc, n)
  end.

(** [parseInt(text)] with no radix: white space, a sign, [0x] or [0X] for
    radix 16, then the longest run of digits, whose value is rounded to a
    double; [None] is NaN. *)
Definition parseInt_text (text : string) : option Z :=
  let s1 := trim_start text in
  let '(sign, s2) :=
    match s1 with
    | String c r =>
        if Ascii.eqb c "-" then (-1, r)
        else if Ascii.eqb c "+" then (1, r)
        else (1, s1)
    | EmptyString => (1, s1)
    end in
  let hex :=
    match s2 with
    | String c (String x r) =>
        if Ascii.eqb c "0" && (Ascii.eqb x "x" || Ascii.eqb x "X")
        then Some r else None
    | _ => None
    end in
  match hex with
  | Some s3 =>
      match take_hex_digits 0 0 s3 with
      | (_, O) => None
      | (v, S _) => Some (round53 (sign * v))
      end
  | None =>
      match take_digits 0 0 s2 with
      | (_, O, _) => None
      | (v, S _, _) => Some (round53 (sign * v))
      end
  end.

(** [parseInt(v)]: the argument is converted to a string first. *)
Definition parseInt (v : JsVal) : option Z := parseInt_text (ToString v).

(** [n || 1] for a number [n]: NaN and 0 are falsy. *)
Definition or_one (n : option Z) : Z :=
  match n with
  | Some z => if z =? 0 then 1 else z
  | None => 1
  end.

(** [toLowerCase] of one character: the letters A-Z and, past them, the
    capital letters 00C0-00DE other than the sign 00D7. *)
Definition lower_char (c : ascii) : ascii :=
  let n := N_of_ascii c in
  if ((65 <=? n) && (n <=? 90)
      || (192 <=? n) && (n <=? 222) && negb (n =? 215))%N
  then ascii_of_N (n + 32) else c.

Fixpoint toLowerCase (s : string) : string :=
  match s with
  | EmptyString => EmptyString
  | String c r => String (lower_char c) (toLowerCase r)
  end.

(** The names under which the controller imports two of the services. *)
Definition getMovieDetailsByImdbIdService := getMovieDetailsByImdbId.
Definition getMoviesByGenreService := getMoviesByGenre.

Module Controller.

(** ** Request and response *)

(** What a handler reads of [req]: the route parameters
    ([ParamsDictionary], from names to strings) and the parsed query
    string, whose values are strings, arrays for a repeated name, or
    objects. *)
Record Request : Type := {
  params : string -> string;
  query : JsObject
}.

(** What a handler, or the response object, can throw. *)
Inductive Thrown : Type :=
| ServiceError (e : JsError)      (* the rejection of the awaited promise *)
| HeadersSent                     (* ERR_HTTP_HEADERS_SENT *)
| NotAFunction (property : string).  (* TypeError: x.p is not a function *)

(** The response object: the status code set so far, and the status and
    body that were sent, if any. *)
Record Response : Type := {
  statusCode : Z;
  sent : option (Z * JsVal)
}.

(** A statement on the response object: the object afterwards, and the
    exception if it threw. *)
Definition Act : Type := Response -> Response * option Thrown.

(** [res.status(code)] *)
Definition status (code : Z) : Act := fun res =>
  ({| statusCode := code; sent := sent res |}, None).

(** [res.json(body)]: sends the body with the current status; on a
    response already sent, setting the headers throws. *)
Definition json (body : JsVal) : Act := fun res =>
  match sent res with
  | Some _ => (res, Some HeadersSent)
  | None => ({| statusCode := statusCode res;
                sent := Some (statusCode res, body) |}, None)
  end.

Definition skip : Act := fun res => (res, None).

(** [a; b]: [b] runs unless [a] threw. *)
Definition seq (a b : Act) : Act := fun res =>
  match a res with
  | (res', None) => b res'
  | (res', Some e) => (res', Some e)
  end.

(** How the call of an [async] handler ends: it returns, it throws (its
    promise is rejected), or it waits for ever on a promise that is never
    settled. *)
Inductive Completion : Type :=
| Returned
| Threw (e : Thrown)
| Pending.

(** The run of a handler: the statements issued, the response object at
    the end, the lines of [console.error] and the completion. *)
Record HandlerRun : Type := {
  statements : list Query;
  response : Response;
  console : list (string * Thrown);
  completion : Completion
}.

(** The frame all four handlers share:
    [try { const x = await service; body(x) }
     catch (err) { console.error(label, err);
                   res.status(500).json({ error: message }) }]. *)
Definition try_await {A} (service : Run A) (body : A -> Act)
    (label message : string) (res : Response) : HandlerRun :=
  let '(log, promise) := service in
  let catch (err : Thrown) (res' : Response) : HandlerRun :=
    let '(res'', thrown) :=
      seq (status 500) (json (JObj [("error", JStr message)])) res' in
    {| statements := log; response := res''; console := [(label, err)];
       completion := match thrown with
                     | None => Returned
                     | Some e => Threw e
                     end |} in
  match promise with
  | Resolved x =>
      match body x res with
      | (res', None) =>
          {| statements := log; response := res'; console := [];
             completion := Returned |}
      | (res', Some err) => catch err res'
      end
  | Rejected e => catch (ServiceError e) res
  | Uncaught _ =>
      {| statements := log; response := res; console := [];
         completion := Pending |}
  end.

(** [{ page, movies }] *)
Definition page_body (page : Z) (movies : list JsObject) : JsVal :=
  JObj [("page", JInt page); ("movies", JArr (map JObj movies))].

(** [(v as string)?.toLowerCase()]: [undefined] for a missing value, the
    lower-case string for a string; any other value has no such method. *)
Definition optional_toLowerCase (v : JsVal) : Thrown + JsVal :=
  match v with
  | JUndefined | JNull => inr JUndefined
  | JStr s => inr (JStr (toLowerCase s))
  | _ => inl (NotAFunction "toLowerCase")
  end.

(** [x === 'desc' ? 'desc' : 'asc'] *)
Definition desc_or_asc (x : JsVal) : SortOrder :=
  match x with
  | JStr s => if String.eqb s "desc" then desc else asc
  | _ => asc
  end.

Section Handlers.

Variable moviesDb : MoviesDb.
Variable ratingsDb : RatingsDb.

Definition listAllMovies (req : Request) (res : Response) : HandlerRun :=
  let page := or_one (parseInt (obj_get "page" (query req))) in
  try_await (getPaginatedMovies moviesDb page)
    (fun movies => json (page_body page movies))
    "Error fetching movies:" "Internal Server Error" res.

(** The [if (!movie)] branch sends the 404 and does not return: the
    [res.json(movie)] after it runs in both cases. *)
Definition getMovieDetailsByImdbId (req : Request) (res : Response) : HandlerRun :=
  let imdbId := params req "imdbId" in
  try_await (getMovieDetailsByImdbIdService moviesDb ratingsDb imdbId)
    (fun movie =>
       seq (match movie with
            | None =>
                seq (status 404) (json (JObj [("error", JStr "Movie not found")]))
            | Some _ => skip
            end)
           (json (match movie with
                  | Some m => JObj m
                  | None => JNull
                  end)))
    "Error fetching movie details:" "Failed to fetch movie details" res.

(** The page and the sort order are read before the [try]. *)
Definition listMoviesByYear (req : Request) (res : Response) : HandlerRun :=
  let year := params req "year" in
  let page := or_one (parseInt (obj_get "page" (query req))) in
  match optional_toLowerCase (obj_get "sort" (query req)) with
  | inl e =>
      {| statements := []; response := res; console := [];
         completion := Threw e |}
  | inr lowered =>
      let sort := desc_or_asc lowered in
      try_await (getMoviesByYear moviesDb year page sort)
        (fun movies => json (page_body page movies))
        "Error fetching movies by year:" "Failed to fetch movies by year" res
  end.

Definition getMoviesByGenre (req : Request) (res : Response) : HandlerRun :=
  let genre := params req "genre" in
  let page := or_one (parseInt (obj_get "page" (query req))) in
  try_await (getMoviesByGenreService moviesDb genre page)
    (fun movies => json (page_body page movies))
    "Error fetching movies by genre:" "Failed to fetch movies by genre" res.

End Handlers.

End Controller.

(** * Vocabulary of the properties *)

(** The three list operations differ in their statement and in the arrow
    function they map over the rows. *)
Definition list_op (mdb : MoviesDb) (q : CatalogQuery)
    (item : JsObject -> Eval JsObject) : Run (list JsObject) :=
  moviesDb_all mdb q (fun err rows =>
    match err with
    | Some e => reject e
    | None => eval_then (array_map item rows) (fun movies => resolve movies)
    end).

(** The catalog record a public id denotes: the first row with that
    [imdbId]. *)
Definition catalog_record (mdb : MoviesDb) (id : string) : option MovieRow :=
  find (fun r => String.eqb (imdbId r) id) (movies mdb).

(** The rating samples of a catalog record. *)
Definition samples (rdb : RatingsDb) (r : MovieRow) : list Q :=
  samples_of (JInt (movieId r)) (ratings rdb).

(** The budget display rule. *)
Definition budget_display (b : option Z) : string :=
  match b with
  | None => "N/A"
  | Some n => "$" ++ digits_of_Z n
  end.

(** The budget of an item, from the stored budget: the text of the
    number that JavaScript has for it. *)
Definition budget_text (b : option Z) : string :=
  match b with
  | None => "N/A"
  | Some n => "$" ++ integer_toString (round53 n)
  end.

(** A stored budget that a double holds exactly. *)
Definition exact_budget (b : option Z) : Prop :=
  match b with
  | None => True
  | Some n => Z.abs n <= 2 ^ 53
  end.

(** The list item of a table row, given its parsed genres. *)
Definition list_dto (r : MovieRow) (g : JsVal) : JsObject :=
  [ ("imdbId", JStr (imdbId r));
    ("title", JStr (title r));
    ("genres", g);
    ("releaseDate", of_text (releaseDate r));
    ("budget", JStr (budget_text (budget r))) ].

(** A stored JSON text behind the guard [text ? JSON.parse(text) : []]. *)
Definition guarded_parse (t : option string) : Eval JsVal :=
  match t with
  | Some s => if String.eqb s EmptyString then inr (JArr []) else JSON_parse_text s
  | None => inr (JArr [])
  end.

(** A stored JSON text without the guard: [JSON.parse(text)]. *)
Definition unguarded_parse (t : option string) : Eval JsVal :=
  JSON_parse (of_text t).

(** ** Sample stores *)

(** Stored JSON texts are written with ['] where the text has a double
    quote; [dq] puts the double quotes in. *)
Fixpoint dq (s : string) : string :=
  match s with
  | EmptyString => EmptyString
  | String c r => String (if Ascii.eqb c "'" then "034"%char else c) (dq r)
  end.

Definition sample_row (id : Z) (imdb : string) (date : option string)
    (b : option Z) (g : option string) : MovieRow :=
  {| movieId_column := id; imdbId := imdb; title := "Movie " ++ imdb;
     overview := Some "An overview."; productionCompanies := None;
     releaseDate := date; budget := b; revenue := None;
     runtime := Some 120; language := "en"; genres := g; status := None |}.

Definition sample_movies : list MovieRow :=
  [ sample_row 1 "tt0000001" (Some "2005-03-01") (Some 0)
      (Some (dq "[{'id':18,'name':'Drama'}]"));
    sample_row 2 "tt0000002" (Some "2005-01-15") (Some 1000000)
      (Some (dq "[{'id':28,'name':'Action'}]"));
    sample_row 3 "tt0000003" (Some "1999-12-31") None
      (Some "[]");
    sample_row 4 "tt0000004" (Some "2005-07-04") (Some 250) None ].

Definition sample_ratings : list RatingSample :=
  [ {| rating_movieId := 1; rating := 4 |};
    {| rating_movieId := 2; rating := 4 |};
    {| rating_movieId := 1; rating := 5 |};
    {| rating_movieId := 2; rating := 4 |};
    {| rating_movieId := 2; rating := 5 |};
    {| rating_movieId := 4; rating := 0 |} ].

(** Two samples of value 0 for the first movie. *)
Definition zero_ratings : list RatingSample :=
  [ {| rating_movieId := 1; rating := 0 |};
    {| rating_movieId := 2; rating := 3 |};
    {| rating_movieId := 1; rating := 0 |} ].

Definition no_fault {Stmt : Type} : Stmt -> option JsError := fun _ => None.

Definition always_fault {Stmt : Type} (message : string) : Stmt -> option JsError :=
  fun _ => Some (StoreError message).

Definition sample_moviesDb : MoviesDb :=
  {| movies := sample_movies; movies_fault := no_fault;
     movies_fit := eq_refl |}.

Definition sample_ratingsDb : RatingsDb :=
  {| ratings := sample_ratings; ratings_fault := no_fault |}.

Definition zero_ratingsDb : RatingsDb :=
  {| ratings := zero_ratings; ratings_fault := no_fault |}.

Definition broken_moviesDb : MoviesDb :=
  {| movies := sample_movies; movies_fault := always_fault "DB error";
     movies_fit := eq_refl |}.

Definition broken_ratingsDb : RatingsDb :=
  {| ratings := sample_ratings; ratings_fault := always_fault "Rating DB error" |}.

(** ** Items and details of a record *)

(** [dto] is the list item of the table row [r], its genres read with
    [parse]. *)
Definition is_list_dto (parse : option string -> Eval JsVal)
    (r : MovieRow) (dto : JsObject) : Prop :=
  exists g, parse (genres r) = inr g /\ dto = list_dto r g.

(** The [averageRating] of a detail object, from the AVG column. *)
Definition rating_display (avg : option Q) : JsVal :=
  match avg with
  | Some a => if truthyQ a then parseFloat_toFixed1 a else JNull
  | None => JNull
  end.

(** The detail object of a table row, given its rating and its parsed
    genres and production companies. *)
Definition detail_dto (r : MovieRow) (avg g pc : JsVal) : JsObject :=
  [ ("imdbId", JStr (imdbId r));
    ("title", JStr (title r));
    ("description", of_text (overview r));
    ("releaseDate", of_text (releaseDate r));
    ("budget", JStr (budget_text (budget r)));
    ("runtime", of_integer (runtime r));
    ("averageRating", avg);
    ("genres", g);
    ("originalLanguage", JStr (language r));
    ("productionCompanies", pc) ].

(** ** Decimal numerals *)

Definition is_digit (c : ascii) : bool :=
  match digit_val c with Some _ => true | None => false end.

Fixpoint all_digits (s : string) : bool :=
  match s with
  | EmptyString => true
  | String c r => is_digit c && all_digits r
  end.

(** Reading a decimal numeral, with an optional minus sign. *)
Definition read_decimal (s : string) : option Z :=
  option_map Z.of_int (NilZero.int_of_string s).

(** ** The internal id *)

(** A table row with its internal id blanked. *)
Definition erase_id (r : MovieRow) : MovieRow :=
  {| movieId_column := 0; imdbId := imdbId r; title := title r;
     overview := overview r; productionCompanies := productionCompanies r;
     releaseDate := releaseDate r; budget := budget r; revenue := revenue r;
     runtime := runtime r; language := language r; genres := genres r;
     status := status r |}.

(** The mean of a list of samples. *)
Definition mean (l : list Q) : Q :=
  (Qsum l / inject_Z (Z.of_nat (List.length l)))%Q.

(** ** Listing by year *)

(** A string without a NUL character. *)
Fixpoint nul_free (s : string) : bool :=
  match s with
  | EmptyString => true
  | String c r => negb (Ascii.eqb c "000") && nul_free r
  end.






(** The genre text of [r] is absent, empty or can be parsed. *)
Definition genres_readable (r : MovieRow) : Prop :=
  exists g, guarded_parse (genres r) = inr g.

(** ** Listing by genre *)

(** [text] contains [g]: the case-sensitive substring. *)
Definition contains (g text : string) : Prop :=
  exists pre post, text = pre ++ g ++ post.

(** Whether [g] is a prefix of [text]. *)
Fixpoint starts_with (g text : string) : bool :=
  match g, text with
  | EmptyString, _ => true
  | String a g', String b text' => Ascii.eqb a b && starts_with g' text'
  | String _ _, EmptyString => false
  end.

(** Whether [text] contains [g], decided. *)
Fixpoint is_substring (g text : string) : bool :=
  starts_with g text ||
  match text with
  | EmptyString => false
  | String _ text' => is_substring g text'
  end.

(** One of the capital letters A-Z. *)
Definition is_capital (c : ascii) : bool :=
  let n := N_of_ascii c in ((65 <=? n) && (n <=? 90))%N.

(** The same character, or the capital and the small form of one
    letter: the small letter has the code of the capital plus 32. *)
Definition same_letter (x y : ascii) : bool :=
  Ascii.eqb x y
  || is_capital x && (N_of_ascii y =? N_of_ascii x + 32)%N
  || is_capital y && (N_of_ascii x =? N_of_ascii y + 32)%N.

(** Two strings that differ at most in the case of letters A-Z, a-z. *)
Fixpoint same_nocase (a b : string) : bool :=
  match a, b with
  | EmptyString, EmptyString => true
  | String x a', String y b' => same_letter x y && same_nocase a' b'
  | _, _ => false
  end.

(** [v] is [text] up to its first NUL character, all of it when it has
    none. *)
Definition before_nul (text v : string) : Prop :=
  nul_free v = true /\
  (text = v \/ exists rest, text = v ++ String "000" rest).

(** Every character, by code. *)
Definition all_ascii : list ascii := map ascii_of_nat (seq 0 256).

(** [text] contains [g] up to the case of letters. *)
Definition contains_nocase (g text : string) : Prop :=
  exists pre mid post, text = pre ++ mid ++ post /\ same_nocase g mid = true.

(** [g] has neither of the LIKE wildcards [%] and [_]. *)
Fixpoint wildcard_free (g : string) : bool :=
  match g with
  | EmptyString => true
  | String c g' =>
      negb (Ascii.eqb c "%") && negb (Ascii.eqb c "_") && wildcard_free g'
  end.

(** A string is none of the listed property names. *)
Ltac not_a_key :=
  let H := fresh "H" in
  simpl; intros H;
  repeat (destruct H as [H|H]; [discriminate H|]);
  exact H.

(** ** The statements of the list operations *)

(** The offset of page [p], as the code computes it. *)
Definition page_offset (p : Z) : Z :=
  Number_multiply (Number_subtract p 1) 50.

Definition page_statement (p : Z) : CatalogQuery :=
  SelectPage 50 (page_offset p).

Definition year_statement (y : string) (o : SortOrder) (p : Z) : CatalogQuery :=
  SelectByYear y o 50 (page_offset p).

Definition genre_statement (g : string) (p : Z) : CatalogQuery :=
  SelectByGenre ("%" ++ g ++ "%") 50 (page_offset p).

(** The genre text of [r] makes [parse] throw. *)
Definition unreadable (parse : option string -> Eval JsVal) (r : MovieRow) : Prop :=
  exists e, parse (genres r) = inl e.

(** The genre text of [r] is absent or empty. *)
Definition no_genre_text (r : MovieRow) : Prop :=
  genres r = None \/ genres r = Some EmptyString.

(** The number a JavaScript value stands for. *)
Definition num_value (v : JsVal) : option Q :=
  match v with
  | JNum m k => Some (inject_Z m / inject_Z (10 ^ Z.of_nat k))%Q
  | _ => None
  end.

(** ** Requests and responses *)

(** A response on which nothing was sent yet. *)
Definition fresh (res : Controller.Response) : Prop :=
  Controller.sent res = None.

Definition new_response : Controller.Response :=
  {| Controller.statusCode := 200; Controller.sent := None |}.

(** A request with one route parameter and a query object. *)
Definition request (param : string) (q : JsObject) : Controller.Request :=
  {| Controller.params := fun _ => param; Controller.query := q |}.

(** [{ error: message }] *)
Definition error_body (message : string) : JsVal :=
  JObj [("error", JStr message)].

(** The letters A-Z and a-z. *)
Definition is_letter (c : ascii) : bool :=
  let n := N_of_ascii c in
  ((65 <=? n) && (n <=? 90) || (97 <=? n) && (n <=? 122))%N.

(** A string of [%] characters only. *)
Fixpoint only_percent (g : string) : bool :=
  match g with
  | EmptyString => true
  | String c g' => Ascii.eqb c "%" && only_percent g'
  end.

(** ** A store with damaged records *)

(** The second record has a genre text that is no JSON, the third an
    empty one. *)
Definition damaged_movies : list MovieRow :=
  [ sample_row 1 "tt0000001" (Some "2005-03-01") (Some 0)
      (Some (dq "[{'id':18,'name':'Drama'}]"));
    sample_row 5 "tt0000005" (Some "2006-05-05") (Some 10)
      (Some "Drama, Action");
    sample_row 6 "tt0000006" (Some "2007-06-06") None
      (Some EmptyString) ].

(** A store with one record, whose budget is [2^53 + 1]. *)
Definition costly_moviesDb : MoviesDb :=
  {| movies := [sample_row 8 "tt0000008" (Some "2008-08-08")
                  (Some 9007199254740993) (Some "[]")];
     movies_fault := no_fault; movies_fit := eq_refl |}.

Definition damaged_moviesDb : MoviesDb :=
  {| movies := damaged_movies; movies_fault := no_fault;
     movies_fit := eq_refl |}.

(** The genre column of [r] is not NULL. *)
Definition has_genre_text (r : MovieRow) : bool :=
  match genres r with Some _ => true | None => false end.

(** A [page] value that is no page number: absent, [0], empty, or a
    text that begins with a letter. *)
Definition no_page_number (v : JsVal) : Prop :=
  v = JUndefined \/ v = JStr "0" \/ v = JStr EmptyString \/
  exists c s, v = JStr (String c s) /\ is_letter c = true.

(** The sort order the year handler reads from a text. *)
Definition sort_of_text (s : string) : SortOrder :=
  if same_nocase "desc" s then desc else asc.


(** A handler run that answered a service error: status 500 with the
    fixed message, the error on the console, and a normal return. *)
Definition answered_500 (label message : string) (e : JsError)
    (run : Controller.HandlerRun) : Prop :=
  Controller.response run
  = {| Controller.statusCode := 500;
       Controller.sent := Some (500, error_body message) |} /\
  Controller.console run = [(label, Controller.ServiceError e)] /\
  Controller.completion run = Controller.Returned.

(** A handler run that is left waiting, with nothing sent or logged. *)
Definition left_pending (res : Controller.Response)
    (run : Controller.HandlerRun) : Prop :=
  Controller.response run = res /\
  Controller.console run = [] /\
  Controller.completion run = Controller.Pending.

(** A query value that is neither missing nor a string: an array (the
    name was repeated) or an object. *)
Definition not_a_text (v : JsVal) : Prop :=
  match v with
  | JUndefined | JNull | JStr _ => False
  | _ => True
  end.

(** ** The reach of the model *)

(** No [\u] escape of the text stands for a character beyond those of
    this model: each [\u] is followed by [00]. *)
Fixpoint narrow_escapes (s : string) : bool :=
  match s with
  | EmptyString => true
  | String c r =>
      (if Ascii.eqb c "\" then
         match r with
         | String u (String a (String b _)) =>
             negb (Ascii.eqb u "u") || Ascii.eqb a "0" && Ascii.eqb b "0"
         | String u _ => negb (Ascii.eqb u "u")
         | EmptyString => true
         end
       else true)
      && narrow_escapes r
  end.

(** A stored JSON text, if there is one, with such escapes only: what
    [JSON_parse_text] says of it is what JSON.parse does. *)
Definition plain_text (t : option string) : Prop :=
  match t with
  | Some s => narrow_escapes s = true
  | None => True
  end.

Definition plain_genres (r : MovieRow) : Prop := plain_text (genres r).

(** A query value whose conversion to a string does not throw: no object
    in it has a [toString] property of its own. *)
Fixpoint converts (v : JsVal) : bool :=
  match v with
  | JArr l => forallb converts l
  | JObj o => negb (existsb (String.eqb "toString") (obj_keys o))
  | _ => true
  end.

(** The sort order the year handler reads from a query value that is
    missing or a text. *)
Definition sort_of_value (v : JsVal) : SortOrder :=
  match v with
  | JStr s => sort_of_text s
  | _ => asc
  end.

(** * Properties *)

(** ** Rounding to a double *)

Lemma pow2_pos (e : Z) : 0 <= e -> 0 < 2 ^ e.
Proof. intros He. apply Z.pow_pos_nonneg; lia. Qed.

Lemma pow2_53_1024 : 2 ^ 53 <= 2 ^ 1024.
Proof. apply Z.pow_le_mono_r; lia. Qed.

(** Up to [2^53] every integer is a double. *)
Lemma round53_exact (z : Z) : Z.abs z <= 2 ^ 53 -> round53 z = z.
Proof.
  intros Hz. destruct (Z.eq_dec (Z.abs z) (2 ^ 53)) as [He|Hne].
  - assert (Hc : z = 2 ^ 53 \/ z = - 2 ^ 53) by lia.
    destruct Hc as [-> | ->]; vm_compute; reflexivity.
  - unfold round53.
    assert (Hl : Z.log2 (Z.abs z) - 52 <= 0).
    { destruct (Z.eq_dec (Z.abs z) 0) as [H0|H0].
      - rewrite H0. simpl. lia.
      - assert (Z.log2 (Z.abs z) < 53); [|lia].
        apply Z.log2_lt_pow2; lia. }
    apply Z.leb_le in Hl. rewrite Hl. reflexivity.
Qed.

(** The parts of the rounding of a large integer. *)
Lemma round53_parts (a : Z) :
  2 ^ 53 <= a ->
  let e := Z.log2 a - 52 in
  1 <= e /\ 2 ^ 52 <= a / 2 ^ e /\ 2 <= 2 ^ e.
Proof.
  intros Ha e.
  assert (H53 : 0 < 2 ^ 53) by (apply pow2_pos; lia).
  assert (Hl : 53 <= Z.log2 a) by (apply Z.log2_le_pow2; lia).
  assert (He : 1 <= e) by (unfold e; lia).
  assert (Hp : 0 < 2 ^ e) by (apply pow2_pos; lia).
  split; [exact He|]. split.
  - apply Z.div_le_lower_bound; [exact Hp|].
    rewrite <- Z.pow_add_r by lia.
    replace (e + 52) with (Z.log2 a) by (unfold e; lia).
    apply Z.log2_spec. lia.
  - change 2 with (2 ^ 1) at 1. apply Z.pow_le_mono_r; lia.
Qed.

(** The rounded magnitude of a large integer is large. *)
Lemma round53_magnitude (a : Z) :
  2 ^ 53 <= a ->
  let e := Z.log2 a - 52 in
  let q := a / 2 ^ e in
  let r := a mod 2 ^ e in
  let half := 2 ^ (e - 1) in
  let q' := if (r <? half) || ((r =? half) && Z.even q) then q else q + 1 in
  2 ^ 53 <= Z.min (q' * 2 ^ e) (2 ^ 1024).
Proof.
  intros Ha e q r half q'.
  destruct (round53_parts a Ha) as [He [Hq H2]].
  fold e in He, Hq, H2. fold q in Hq.
  assert (Hq' : 2 ^ 52 <= q') by (unfold q'; destruct (_ || _); lia).
  assert (H52 : 0 < 2 ^ 52) by (apply pow2_pos; lia).
  apply Z.min_glb; [|exact pow2_53_1024].
  change (2 ^ 53) with (2 ^ 52 * 2).
  apply Z.mul_le_mono_nonneg; lia.
Qed.

Lemma round53_large (z : Z) : 2 ^ 53 <= z -> 2 ^ 53 <= round53 z.
Proof.
  intros Hz.
  assert (H53 : 0 < 2 ^ 53) by (apply pow2_pos; lia).
  unfold round53. rewrite (Z.abs_eq z) by lia.
  destruct (round53_parts z Hz) as [He _].
  destruct (Z.leb_spec (Z.log2 z - 52) 0) as [Hle|_]; [lia|].
  rewrite (Z.sgn_pos z) by lia. rewrite Z.mul_1_l.
  apply (round53_magnitude z Hz).
Qed.

Lemma round53_opp (z : Z) : round53 (- z) = - round53 z.
Proof.
  unfold round53. rewrite Z.abs_opp, Z.sgn_opp.
  destruct (_ <=? 0); [reflexivity|]. lia.
Qed.

Lemma round53_nonneg (z : Z) : 0 <= z -> 0 <= round53 z.
Proof.
  intros Hz. destruct (Z.le_gt_cases z (2 ^ 53)) as [Hs|Hl].
  - rewrite round53_exact by lia. exact Hz.
  - assert (H53 : 0 < 2 ^ 53) by (apply pow2_pos; lia).
    pose proof (round53_large z ltac:(lia)). lia.
Qed.

Lemma round53_nonpos (z : Z) : z <= 0 -> round53 z <= 0.
Proof.
  intros Hz. pose proof (round53_nonneg (- z) ltac:(lia)) as H.
  rewrite round53_opp in H. lia.
Qed.


(** ** The offset of a page *)

(** While [(p - 1) * 50] stays within [2^53], the offset is exact. *)
Lemma page_offset_exact (p : Z) :
  1 <= p -> (p - 1) * 50 <= 2 ^ 53 -> page_offset p = (p - 1) * 50.
Proof.
  intros Hp Hs. unfold page_offset, Number_multiply, Number_subtract.
  rewrite (round53_exact (p - 1)) by lia.
  apply round53_exact. lia.
Qed.

Lemma page_offset_exact_abs (p : Z) :
  Z.abs ((p - 1) * 50) <= 2 ^ 53 -> page_offset p = (p - 1) * 50.
Proof.
  intros Hs. unfold page_offset, Number_multiply, Number_subtract.
  rewrite (round53_exact (p - 1)) by lia.
  apply round53_exact. lia.
Qed.

Lemma page_offset_not_positive (p : Z) : p <= 1 -> page_offset p <= 0.
Proof.
  intros Hp. unfold page_offset, Number_multiply, Number_subtract.
  apply round53_nonpos.
  pose proof (round53_nonpos (p - 1) ltac:(lia)). lia.
Qed.

(** Beyond that it is past [2^53], as the exact product is. *)
Lemma page_offset_large (p : Z) :
  2 ^ 53 < (p - 1) * 50 -> 2 ^ 53 <= page_offset p.
Proof.
  intros Hl. unfold page_offset, Number_multiply, Number_subtract.
  assert (H53 : 0 < 2 ^ 53) by (apply pow2_pos; lia).
  apply round53_large.
  destruct (Z.le_gt_cases (p - 1) (2 ^ 53)) as [Hs|Hb].
  - rewrite (round53_exact (p - 1)) by lia. lia.
  - pose proof (round53_large (p - 1) ltac:(lia)). lia.
Qed.

(** On a list of fewer than [2^53] rows the offset skips the rows that
    the exact product skips. *)
Lemma skipn_page_offset {A} (p : Z) (l : list A) :
  Z.of_nat (List.length l) < 2 ^ 53 ->
  skipn (Z.to_nat (page_offset p)) l = skipn (Z.to_nat ((p - 1) * 50)) l.
Proof.
  intros Hl.
  destruct (Z.le_gt_cases p 1) as [Hp|Hp].
  - pose proof (page_offset_not_positive p Hp).
    replace (Z.to_nat (page_offset p)) with 0%nat by lia.
    replace (Z.to_nat ((p - 1) * 50)) with 0%nat by lia.
    reflexivity.
  - destruct (Z.le_gt_cases ((p - 1) * 50) (2 ^ 53)) as [Hs|Hb].
    + rewrite page_offset_exact by lia. reflexivity.
    + pose proof (page_offset_large p ltac:(lia)).
      rewrite !skipn_all2 by lia. reflexivity.
Qed.

Lemma limit_offset_page_offset {A} (p : Z) (l : list A) :
  Z.of_nat (List.length l) < 2 ^ 53 ->
  limit_offset 50 (page_offset p) l = limit_offset 50 ((p - 1) * 50) l.
Proof.
  intros Hl. unfold limit_offset. rewrite (skipn_page_offset p l Hl).
  reflexivity.
Qed.

Lemma movies_fit_53 (mdb : MoviesDb) (l : list MovieRow) :
  (List.length l <= List.length (movies mdb))%nat ->
  Z.of_nat (List.length l) < 2 ^ 53.
Proof.
  intros Hl. pose proof (movies_fit mdb) as Hf. apply Z.ltb_lt in Hf.
  assert (2 ^ 48 <= 2 ^ 53) by (apply Z.pow_le_mono_r; lia). lia.
Qed.

(** ** Mapping with exceptions *)

Section ArrayMap.

Context {A B : Type} (f : A -> Eval B).

Lemma array_map_inr (rows : list A) (out : list B) :
  array_map f rows = inr out -> Forall2 (fun a b => f a = inr b) rows out.
Proof.
  revert out. induction rows as [|a rows IH]; simpl; intros out H.
  - injection H as <-. constructor.
  - destruct (f a) as [e|b] eqn:Hf; simpl in H; [discriminate|].
    destruct (array_map f rows) as [e|bs]; simpl in H; [discriminate|].
    injection H as <-. constructor; auto.
Qed.

Lemma array_map_length (rows : list A) (out : list B) :
  array_map f rows = inr out -> List.length out = List.length rows.
Proof.
  intros H. apply array_map_inr in H.
  symmetry. eapply Forall2_length; eauto.
Qed.

Lemma array_map_total (rows : list A) :
  Forall (fun a => exists b, f a = inr b) rows ->
  exists out, array_map f rows = inr out.
Proof.
  induction 1 as [|a rows [b Hb] _ [bs Hbs]]; simpl.
  - eexists; reflexivity.
  - rewrite Hb; simpl. rewrite Hbs; simpl. eexists; reflexivity.
Qed.

Lemma array_map_inl (rows : list A) (e : JsError) :
  array_map f rows = inl e -> exists a, In a rows /\ f a = inl e.
Proof.
  induction rows as [|a rows IH]; simpl; [discriminate|].
  destruct (f a) as [e'|b] eqn:Hf; simpl.
  - intros [= <-]. exists a; auto.
  - destruct (array_map f rows) as [e'|bs]; simpl; [|discriminate].
    intros [= <-]. destruct IH as [a' [Hin Ha']]; auto. exists a'; auto.
Qed.

End ArrayMap.

(** ** JSON.parse never runs out of fuel *)

Lemma skip_ws_length (s : string) :
  (String.length (skip_ws s) <= String.length s)%nat.
Proof.
  induction s as [|c s IH]; simpl; [lia|].
  destruct (is_ws c); simpl; lia.
Qed.

Lemma next_char_length (s r : string) (c : ascii) :
  next_char s = Some (c, r) -> (String.length r < String.length s)%nat.
Proof.
  unfold next_char. pose proof (skip_ws_length s) as H.
  destruct (skip_ws s); [discriminate|].
  intros [= -> ->]. simpl in H. lia.
Qed.

Lemma strip_prefix_length (p s r : string) :
  strip_prefix p s = Some r -> (String.length r <= String.length s)%nat.
Proof.
  revert s. induction p as [|a p IH]; intros [|b s]; simpl; try discriminate.
  - intros [= <-]. simpl. lia.
  - intros [= <-]. simpl. lia.
  - destruct (Ascii.eqb a b); [|discriminate].
    intros H. apply IH in H. lia.
Qed.

Lemma parse_string_body_length (s t r : string) :
  parse_string_body s = Some (t, r) ->
  (String.length r < String.length s)%nat.
Proof.
  remember (String.length s) as n eqn:Hn.
  revert s t r Hn. induction n as [n IH] using lt_wf_ind.
  intros s t r Hn. destruct s as [|c s]; simpl; [discriminate|].
  assert (Hcons : forall (x : ascii) (s' : string),
             (String.length s' < n)%nat ->
             option_map (fun '(t0, rest) => (String x t0, rest))
               (parse_string_body s') = Some (t, r) ->
             (String.length r < String.length s')%nat).
  { intros x s' Hlt H.
    destruct (parse_string_body s') as [[t0 r0]|] eqn:E; [|discriminate].
    injection H as <- <-. eapply IH; eauto. }
  simpl in Hn.
  destruct (Ascii.eqb c dquote).
  { intros [= <- <-]. lia. }
  destruct (Ascii.eqb c "\").
  - destruct s as [|e s]; [discriminate|]. simpl in Hn.
    destruct (Ascii.eqb e dquote || Ascii.eqb e "\" || Ascii.eqb e "/").
    { intros H. apply Hcons in H; simpl; lia. }
    repeat (match goal with
            | |- (if ?b then _ else _) = _ -> _ =>
                destruct b; [intros H; apply Hcons in H; simpl; lia|]
            end).
    destruct (Ascii.eqb e "u"); [|discriminate].
    destruct s as [|h1 [|h2 [|h3 [|h4 s]]]]; try discriminate.
    destruct (hex_val h1) as [[| |]|]; try discriminate.
    destruct (hex_val h2) as [[| |]|]; try discriminate.
    destruct (hex_val h3); try discriminate.
    destruct (hex_val h4); try discriminate.
    simpl in Hn. intros H. apply Hcons in H; simpl; lia.
  - destruct (N_of_ascii c <? 32)%N; [discriminate|].
    intros H. apply Hcons in H; lia.
Qed.

Lemma take_digits_length (acc : Z) (n : nat) (s : string) :
  (String.length (snd (take_digits acc n s)) + snd (fst (take_digits acc n s))
   = String.length s + n)%nat.
Proof.
  revert acc n. induction s as [|c s IH]; intros acc n; simpl; [reflexivity|].
  destruct (digit_val c); simpl; [|reflexivity].
  rewrite IH. lia.
Qed.

Lemma parse_exp_digits_length (sign : Z) (s r : string) (v : Z) :
  parse_exp_digits sign s = Some (v, r) ->
  (String.length r <= String.length s)%nat.
Proof.
  unfold parse_exp_digits. pose proof (take_digits_length 0 0 s) as H.
  destruct (take_digits 0 0 s) as [[v' k] r']. simpl in H.
  destruct k; [discriminate|]. intros [= _ <-]. lia.
Qed.

Lemma parse_number_length (s r : string) (v : JsVal) :
  parse_number s = Some (v, r) -> (String.length r < String.length s)%nat.
Proof.
  unfold parse_number.
  destruct (parse_sign s) as [sign s1] eqn:Hsign.
  assert (H1 : (String.length s1 <= String.length s)%nat).
  { unfold parse_sign in Hsign. destruct s as [|c s]; [now inversion Hsign|].
    destruct (Ascii.eqb c "-"); inversion Hsign; simpl; lia. }
  destruct (parse_int_part s1) as [[i s2]|] eqn:Hint; [|discriminate].
  assert (H2 : (String.length s2 < String.length s1)%nat).
  { unfold parse_int_part in Hint. destruct s1 as [|c s1]; [discriminate|].
    destruct (Ascii.eqb c "0"); [inversion Hint; simpl; lia|].
    pose proof (take_digits_length 0 0 (String c s1)) as H.
    destruct (take_digits 0 0 (String c s1)) as [[v' k] r'].
    destruct k; [discriminate|]. inversion Hint; subst. simpl in *. lia. }
  destruct (parse_frac_part i s2) as [[[m fd] s3]|] eqn:Hfrac; [|discriminate].
  assert (H3 : (String.length s3 <= String.length s2)%nat).
  { unfold parse_frac_part in Hfrac. destruct s2 as [|c s2].
    - inversion Hfrac. simpl. lia.
    - destruct (Ascii.eqb c ".").
      + pose proof (take_digits_length i 0 s2) as H.
        destruct (take_digits i 0 s2) as [[v' k] r'].
        destruct k; [discriminate|]. inversion Hfrac; subst. simpl in *. lia.
      + inversion Hfrac. simpl. lia. }
  destruct (parse_exp_part s3) as [[e s4]|] eqn:Hexp; [|discriminate].
  assert (H4 : (String.length s4 <= String.length s3)%nat).
  { unfold parse_exp_part in Hexp. destruct s3 as [|c s3].
    - inversion Hexp. simpl. lia.
    - destruct (Ascii.eqb c "e" || Ascii.eqb c "E").
      + destruct s3 as [|d s3]; [discriminate|].
        destruct (Ascii.eqb d "+");
          [apply parse_exp_digits_length in Hexp; simpl; lia|].
        destruct (Ascii.eqb d "-");
          apply parse_exp_digits_length in Hexp; simpl in *; lia.
      + inversion Hexp. simpl. lia. }
  intros [= _ <-]. lia.
Qed.

Lemma parse_value_S (n : nat) :
  parse_value (S n) = parse_value_step (parse_elements n) (parse_members n).
Proof. reflexivity. Qed.

Lemma parse_elements_S (n : nat) (acc : list JsVal) :
  parse_elements (S n) acc
  = parse_elements_step (parse_value n) (parse_elements n) acc.
Proof. reflexivity. Qed.

Lemma parse_members_S (n : nat) (acc : JsObject) :
  parse_members (S n) acc
  = parse_members_step (parse_value n) (parse_members n) acc.
Proof. reflexivity. Qed.

(** Every successful call leaves less text than it was given. *)
Lemma parse_length (fuel : nat) :
  (forall s v r, parse_value fuel s = Some (v, r) ->
                 (String.length r < String.length s)%nat) /\
  (forall acc s v r, parse_elements fuel acc s = Some (v, r) ->
                     (String.length r < String.length s)%nat) /\
  (forall acc s v r, parse_members fuel acc s = Some (v, r) ->
                     (String.length r < String.length s)%nat).
Proof.
  induction fuel as [|fuel [IHv [IHe IHm]]].
  { repeat split; intros; discriminate. }
  split; [|split].
  - intros s v r. rewrite parse_value_S. unfold parse_value_step.
    destruct (next_char s) as [[c s']|] eqn:Hc; [|discriminate].
    apply next_char_length in Hc.
    destruct (Ascii.eqb c "n").
    { destruct (strip_prefix "ull" s') eqn:E; [|discriminate].
      apply strip_prefix_length in E. intros [= _ <-]. lia. }
    destruct (Ascii.eqb c "t").
    { destruct (strip_prefix "rue" s') eqn:E; [|discriminate].
      apply strip_prefix_length in E. intros [= _ <-]. lia. }
    destruct (Ascii.eqb c "f").
    { destruct (strip_prefix "alse" s') eqn:E; [|discriminate].
      apply strip_prefix_length in E. intros [= _ <-]. lia. }
    destruct (Ascii.eqb c dquote).
    { destruct (parse_string_body s') as [[t rest]|] eqn:E; [|discriminate].
      apply parse_string_body_length in E. intros [= _ <-]. lia. }
    destruct (Ascii.eqb c "[").
    { destruct (next_char s') as [[c' r']|] eqn:E.
      - apply next_char_length in E. destruct (Ascii.eqb c' "]").
        + intros [= _ <-]. lia.
        + intros H. apply IHe in H. lia.
      - intros H. apply IHe in H. lia. }
    destruct (Ascii.eqb c "{").
    { destruct (next_char s') as [[c' r']|] eqn:E.
      - apply next_char_length in E. destruct (Ascii.eqb c' "}").
        + intros [= _ <-]. lia.
        + intros H. apply IHm in H. lia.
      - intros H. apply IHm in H. lia. }
    intros H. apply parse_number_length in H. simpl in H. lia.
  - intros acc s v r. rewrite parse_elements_S. unfold parse_elements_step.
    destruct (parse_value fuel s) as [[v1 r1]|] eqn:E1; [|discriminate].
    apply IHv in E1.
    destruct (next_char r1) as [[c r']|] eqn:E2; [|discriminate].
    apply next_char_length in E2.
    destruct (Ascii.eqb c ",").
    { intros H. apply IHe in H. lia. }
    destruct (Ascii.eqb c "]"); [|discriminate].
    intros [= _ <-]. lia.
  - intros acc s v r. rewrite parse_members_S. unfold parse_members_step.
    destruct (next_char s) as [[q r0]|] eqn:E0; [|discriminate].
    apply next_char_length in E0.
    destruct (Ascii.eqb q dquote); [|discriminate].
    destruct (parse_string_body r0) as [[key r1]|] eqn:E1; [|discriminate].
    apply parse_string_body_length in E1.
    destruct (next_char r1) as [[colon r2]|] eqn:E2; [|discriminate].
    apply next_char_length in E2.
    destruct (Ascii.eqb colon ":"); [|discriminate].
    destruct (parse_value fuel r2) as [[v3 r3]|] eqn:E3; [|discriminate].
    apply IHv in E3.
    destruct (next_char r3) as [[c r4]|] eqn:E4; [|discriminate].
    apply next_char_length in E4.
    destruct (Ascii.eqb c ",").
    { intros H. apply IHm in H. lia. }
    destruct (Ascii.eqb c "}"); [|discriminate].
    intros [= _ <-]. lia.
Qed.

(** Beyond twice the length of the text, one more unit of fuel changes
    nothing. *)
Lemma parse_fuel_step (n : nat) :
  (forall s, (2 * String.length s + 2 <= n)%nat ->
             parse_value (S n) s = parse_value n s) /\
  (forall acc s, (2 * String.length s + 3 <= n)%nat ->
                 parse_elements (S n) acc s = parse_elements n acc s) /\
  (forall acc s, (2 * String.length s + 3 <= n)%nat ->
                 parse_members (S n) acc s = parse_members n acc s).
Proof.
  induction n as [|n [IHv [IHe IHm]]].
  { repeat split; intros; lia. }
  destruct (parse_length n) as [Lv _].
  split; [|split].
  - intros s Hs. rewrite (parse_value_S (S n)), (parse_value_S n).
    unfold parse_value_step.
    destruct (next_char s) as [[c r]|] eqn:Hc; [|reflexivity].
    apply next_char_length in Hc.
    rewrite (IHe [] r), (IHm [] r) by lia. reflexivity.
  - intros acc s Hs. rewrite (parse_elements_S (S n)), (parse_elements_S n).
    unfold parse_elements_step.
    rewrite (IHv s) by lia.
    destruct (parse_value n s) as [[v r]|] eqn:E; [|reflexivity].
    apply Lv in E.
    destruct (next_char r) as [[c r']|] eqn:Hc; [|reflexivity].
    apply next_char_length in Hc.
    rewrite (IHe (acc ++ [v])%list r') by lia. reflexivity.
  - intros acc s Hs. rewrite (parse_members_S (S n)), (parse_members_S n).
    unfold parse_members_step.
    destruct (next_char s) as [[q r0]|] eqn:E0; [|reflexivity].
    apply next_char_length in E0.
    destruct (Ascii.eqb q dquote); [|reflexivity].
    destruct (parse_string_body r0) as [[key r1]|] eqn:E1; [|reflexivity].
    apply parse_string_body_length in E1.
    destruct (next_char r1) as [[colon r2]|] eqn:E2; [|reflexivity].
    apply next_char_length in E2.
    destruct (Ascii.eqb colon ":"); [|reflexivity].
    rewrite (IHv r2) by lia.
    destruct (parse_value n r2) as [[v3 r3]|] eqn:E3; [|reflexivity].
    apply Lv in E3.
    destruct (next_char r3) as [[c r4]|] eqn:E4; [|reflexivity].
    apply next_char_length in E4.
    rewrite (IHm (define_member key v3 acc) r4) by lia. reflexivity.
Qed.

(** The fuel of [JSON_parse_text] is enough: with any larger amount the
    parser returns the same. *)
Lemma parse_value_fuel (text : string) (fuel : nat) :
  (2 * String.length text + 2 <= fuel)%nat ->
  parse_value fuel text = parse_value (2 * String.length text + 2) text.
Proof.
  intros H.
  replace fuel with ((fuel - (2 * String.length text + 2))
                     + (2 * String.length text + 2))%nat by lia.
  generalize (fuel - (2 * String.length text + 2))%nat. clear H fuel.
  induction n as [|n IH]; [reflexivity|].
  rewrite <- IH. apply parse_fuel_step. lia.
Qed.

(** ** The shape of a list operation *)

Lemma getPaginatedMovies_list_op mdb page :
  getPaginatedMovies mdb page = list_op mdb (page_statement page) page_item.
Proof. reflexivity. Qed.

Lemma getMoviesByYear_list_op mdb year page o :
  getMoviesByYear mdb year page o
  = list_op mdb (year_statement year o page) year_item.
Proof. reflexivity. Qed.

Lemma getMoviesByGenre_list_op mdb genre page :
  getMoviesByGenre mdb genre page
  = list_op mdb (genre_statement genre page) genre_item.
Proof. reflexivity. Qed.

Lemma list_op_issued mdb q item :
  issued (list_op mdb q item) = [OnMovies q].
Proof.
  unfold list_op, moviesDb_all.
  destruct (movies_fault mdb q); [reflexivity|].
  destruct (array_map item _); reflexivity.
Qed.

Lemma list_op_fault mdb q item e :
  movies_fault mdb q = Some e ->
  settled (list_op mdb q item) = Rejected e.
Proof. unfold list_op, moviesDb_all. intros ->. reflexivity. Qed.

Lemma list_op_answer mdb q item :
  movies_fault mdb q = None ->
  settled (list_op mdb q item)
  = match array_map item (answer_all (movies mdb) q) with
    | inl e => Uncaught e
    | inr movies => Resolved movies
    end.
Proof.
  unfold list_op, moviesDb_all. intros ->.
  destruct (array_map item _); reflexivity.
Qed.

(** A resolved list operation maps the arrow function over the rows the
    statement selected, one result per row and in their order. *)
Lemma list_op_resolved mdb q item dtos :
  settled (list_op mdb q item) = Resolved dtos ->
  movies_fault mdb q = None /\
  Forall2 (fun r dto => item (columns q r) = inr dto)
    (select_rows (movies mdb) q) dtos.
Proof.
  destruct (movies_fault mdb q) as [e|] eqn:Hf.
  - rewrite (list_op_fault _ _ _ _ Hf). discriminate.
  - rewrite (list_op_answer _ _ _ Hf). split; [reflexivity|].
    destruct (array_map item _) as [e|out] eqn:Hm; [discriminate|].
    injection H as <-. apply array_map_inr in Hm.
    unfold answer_all in Hm.
    remember (select_rows (movies mdb) q) as rows. clear Heqrows.
    revert out Hm. induction rows; intros out Hm; inversion Hm; subst;
      constructor; auto.
Qed.

(** It resolves when the store answers and the arrow function throws on
    none of the selected rows. *)
Lemma list_op_resolves mdb q item :
  movies_fault mdb q = None ->
  Forall (fun r => exists dto, item (columns q r) = inr dto)
    (select_rows (movies mdb) q) ->
  exists dtos, settled (list_op mdb q item) = Resolved dtos.
Proof.
  intros Hf Hall. rewrite (list_op_answer _ _ _ Hf).
  destruct (array_map_total item (answer_all (movies mdb) q)) as [out Hout].
  - unfold answer_all. apply Forall_map. exact Hall.
  - rewrite Hout. eauto.
Qed.

(** ** LIMIT and OFFSET *)

Lemma limit_offset_page {A} (offset : Z) (l : list A) :
  limit_offset 50 offset l = firstn 50 (skipn (Z.to_nat offset) l).
Proof. reflexivity. Qed.

Lemma limit_offset_length {A} (offset : Z) (l : list A) :
  (List.length (limit_offset 50 offset l) <= 50)%nat.
Proof. rewrite limit_offset_page. apply firstn_le_length. Qed.

Lemma in_skipn {A} (n : nat) (l : list A) (x : A) :
  In x (skipn n l) -> In x l.
Proof.
  intros H. rewrite <- (firstn_skipn n l). apply in_or_app. now right.
Qed.

Lemma in_firstn {A} (n : nat) (l : list A) (x : A) :
  In x (firstn n l) -> In x l.
Proof.
  intros H. rewrite <- (firstn_skipn n l). apply in_or_app. now left.
Qed.

Lemma limit_offset_incl {A} (limit offset : Z) (l : list A) (x : A) :
  In x (limit_offset limit offset l) -> In x l.
Proof.
  unfold limit_offset. intros H.
  destruct (limit <? 0).
  - eapply in_skipn; eauto.
  - apply in_firstn in H. eapply in_skipn; eauto.
Qed.

(** ** The rows of a page *)

Lemma insert_sorted_length {A} (le : A -> A -> bool) (x : A) (l : list A) :
  List.length (insert_sorted le x l) = S (List.length l).
Proof.
  induction l as [|y l IH]; simpl; [reflexivity|].
  destruct (le x y); simpl; [reflexivity|]. now rewrite IH.
Qed.

Lemma order_by_length {A} (le : A -> A -> bool) (l : list A) :
  List.length (order_by le l) = List.length l.
Proof.
  induction l as [|x l IH]; simpl; [reflexivity|].
  rewrite insert_sorted_length. now rewrite IH.
Qed.

(** The table has fewer than [2^48] rows, so each list statement selects
    the rows that the exact offset [(p - 1) * 50] selects. *)
Lemma select_rows_page mdb p :
  select_rows (movies mdb) (page_statement p)
  = select_rows (movies mdb) (SelectPage 50 ((p - 1) * 50)).
Proof.
  apply limit_offset_page_offset, (movies_fit_53 mdb). lia.
Qed.

Lemma select_rows_year mdb y o p :
  select_rows (movies mdb) (year_statement y o p)
  = select_rows (movies mdb) (SelectByYear y o 50 ((p - 1) * 50)).
Proof.
  apply limit_offset_page_offset, (movies_fit_53 mdb).
  rewrite order_by_length. apply filter_length_le.
Qed.

Lemma select_rows_genre mdb g p :
  select_rows (movies mdb) (genre_statement g p)
  = select_rows (movies mdb)
      (SelectByGenre ("%" ++ g ++ "%") 50 ((p - 1) * 50)).
Proof.
  apply limit_offset_page_offset, (movies_fit_53 mdb).
  apply filter_length_le.
Qed.

(** ** Rows and items *)

Lemma dollar_integer (z : Z) : dollar (JInt z) = "$" ++ integer_toString z.
Proof. reflexivity. Qed.

Lemma budget_of_row (b : option Z) :
  (if not_nullish (of_integer b) then JStr (dollar (of_integer b))
   else JStr "N/A") = JStr (budget_text b).
Proof. destruct b; reflexivity. Qed.

Lemma truthy_text (t : option string) :
  (if truthy (of_text t) then JSON_parse (of_text t) else inr (JArr []))
  = guarded_parse t.
Proof.
  destruct t as [s|]; simpl; [|reflexivity].
  destruct (String.eqb s EmptyString); reflexivity.
Qed.

Lemma page_item_row (r : MovieRow) :
  page_item (list_columns r)
  = (g <- unguarded_parse (genres r) ;; inr (list_dto r g)).
Proof.
  unfold page_item.
  change (obj_get "genres" (list_columns r)) with (of_text (genres r)).
  change (obj_get "budget" (list_columns r)) with (of_integer (budget r)).
  rewrite budget_of_row. reflexivity.
Qed.

Lemma year_item_row (r : MovieRow) :
  year_item (list_columns r)
  = (g <- guarded_parse (genres r) ;; inr (list_dto r g)).
Proof.
  unfold year_item.
  change (obj_get "genres" (list_columns r)) with (of_text (genres r)).
  change (obj_get "budget" (list_columns r)) with (of_integer (budget r)).
  rewrite budget_of_row, truthy_text. reflexivity.
Qed.

Lemma genre_item_row (r : MovieRow) :
  genre_item (list_columns r)
  = (g <- guarded_parse (genres r) ;; inr (list_dto r g)).
Proof. exact (year_item_row r). Qed.

Lemma bind_inr {A B} (x : Eval A) (f : A -> Eval B) (b : B) :
  bind x f = inr b -> exists a, x = inr a /\ f a = inr b.
Proof. destruct x as [e|a]; simpl; [discriminate|]. eauto. Qed.

(** ** The detail operation, case by case *)

Lemma find_none_iff {A} (f : A -> bool) (l : list A) :
  (forall x, In x l -> f x = false) -> find f l = None.
Proof.
  induction l as [|a l IH]; simpl; intros H; [reflexivity|].
  rewrite (H a) by auto. apply IH. auto.
Qed.

Lemma answer_get_by_id mdb id :
  answer_get (movies mdb) (SelectByImdbId id)
  = option_map detail_columns (catalog_record mdb id).
Proof.
  unfold answer_get, answer_all, catalog_record. simpl.
  induction (movies mdb) as [|r t IH]; simpl; [reflexivity|].
  destruct (String.eqb (imdbId r) id); [reflexivity|exact IH].
Qed.

Lemma getDetail_catalog_fault mdb rdb id e :
  movies_fault mdb (SelectByImdbId id) = Some e ->
  getMovieDetailsByImdbId mdb rdb id
  = ([OnMovies (SelectByImdbId id)], Rejected e).
Proof.
  unfold getMovieDetailsByImdbId, moviesDb_get. intros ->. reflexivity.
Qed.

Lemma getDetail_not_found mdb rdb id :
  movies_fault mdb (SelectByImdbId id) = None ->
  catalog_record mdb id = None ->
  getMovieDetailsByImdbId mdb rdb id
  = ([OnMovies (SelectByImdbId id)], Resolved None).
Proof.
  unfold getMovieDetailsByImdbId, moviesDb_get. intros -> H.
  rewrite answer_get_by_id, H. reflexivity.
Qed.

Lemma getDetail_rating_fault mdb rdb id r e :
  movies_fault mdb (SelectByImdbId id) = None ->
  catalog_record mdb id = Some r ->
  ratings_fault rdb (SelectAvgRating (JInt (movieId r))) = Some e ->
  getMovieDetailsByImdbId mdb rdb id
  = ([OnMovies (SelectByImdbId id);
      OnRatings (SelectAvgRating (JInt (movieId r)))], Rejected e).
Proof.
  unfold getMovieDetailsByImdbId, moviesDb_get, ratingsDb_get. intros -> H.
  rewrite answer_get_by_id, H. simpl. intros ->. reflexivity.
Qed.

Lemma getDetail_found mdb rdb id r :
  movies_fault mdb (SelectByImdbId id) = None ->
  catalog_record mdb id = Some r ->
  ratings_fault rdb (SelectAvgRating (JInt (movieId r))) = None ->
  getMovieDetailsByImdbId mdb rdb id
  = ([OnMovies (SelectByImdbId id);
      OnRatings (SelectAvgRating (JInt (movieId r)))],
     match movie_details (detail_columns r)
             (Some {| averageRating := sql_avg (samples rdb r) |}) with
     | inl e => Uncaught e
     | inr movie => Resolved (Some movie)
     end).
Proof.
  unfold getMovieDetailsByImdbId, moviesDb_get, ratingsDb_get. intros -> H.
  rewrite answer_get_by_id, H. simpl option_map. cbv iota beta.
  change (obj_get "movieId" (detail_columns r)) with (JInt (movieId r)).
  intros ->. unfold answer_avg, samples.
  destruct (movie_details _ _); reflexivity.
Qed.

(** ** Unknown public id *)

(** C4. When no catalog record has the public id,
    [getMovieDetailsByImdbId] issues no statement on the rating store;
    and when the catalog store answers, it resolves with [null], the
    catalog lookup being the one statement issued. *)
Theorem getDetail_unknown_id_is_null (mdb : MoviesDb) (rdb : RatingsDb)
    (id : string) :
  (forall r, In r (movies mdb) -> imdbId r <> id) ->
  (forall q, ~ In (OnRatings q) (issued (getMovieDetailsByImdbId mdb rdb id))) /\
  (movies_fault mdb (SelectByImdbId id) = None ->
   settled (getMovieDetailsByImdbId mdb rdb id) = Resolved None /\
   issued (getMovieDetailsByImdbId mdb rdb id) = [OnMovies (SelectByImdbId id)]).
Proof.
  intros Hnone.
  assert (Hrec : catalog_record mdb id = None).
  { apply find_none_iff. intros r Hr. apply String.eqb_neq. auto. }
  split.
  - intros q.
    destruct (movies_fault mdb (SelectByImdbId id)) as [e|] eqn:Hf.
    + rewrite (getDetail_catalog_fault mdb rdb id e Hf).
      intros [H|[]]. discriminate.
    + rewrite (getDetail_not_found mdb rdb id Hf Hrec).
      intros [H|[]]. discriminate.
  - intros Hf. rewrite (getDetail_not_found mdb rdb id Hf Hrec). auto.
Qed.

Lemma getDetail_unknown_id_is_null_witness :
  settled (getMovieDetailsByImdbId sample_moviesDb sample_ratingsDb "tt0000000")
  = Resolved None.
Proof.
  apply (getDetail_unknown_id_is_null sample_moviesDb sample_ratingsDb
           "tt0000000").
  - simpl. intros r [<-|[<-|[<-|[<-|[]]]]]; discriminate.
  - reflexivity.
Defined.

(** ** Store errors *)

(** C5. If the catalog lookup fails with [e], or the catalog record is
    found and the rating lookup fails with [e], the promise of
    [getMovieDetailsByImdbId] is rejected with that same [e]: no detail
    object is resolved. *)
Theorem getDetail_store_error_propagates (mdb : MoviesDb) (rdb : RatingsDb)
    (id : string) (e : JsError) :
  movies_fault mdb (SelectByImdbId id) = Some e \/
  (movies_fault mdb (SelectByImdbId id) = None /\
   exists r, catalog_record mdb id = Some r /\
             ratings_fault rdb (SelectAvgRating (JInt (movieId r))) = Some e) ->
  settled (getMovieDetailsByImdbId mdb rdb id) = Rejected e.
Proof.
  intros [Hc | [Hc [r [Hr He]]]].
  - rewrite (getDetail_catalog_fault mdb rdb id e Hc). reflexivity.
  - rewrite (getDetail_rating_fault mdb rdb id r e Hc Hr He). reflexivity.
Qed.

Lemma getDetail_store_error_propagates_witness :
  settled (getMovieDetailsByImdbId broken_moviesDb sample_ratingsDb "tt0000002")
  = Rejected (StoreError "DB error") /\
  settled (getMovieDetailsByImdbId sample_moviesDb broken_ratingsDb "tt0000002")
  = Rejected (StoreError "Rating DB error").
Proof.
  split.
  - apply getDetail_store_error_propagates. left. reflexivity.
  - apply getDetail_store_error_propagates. right. split; [reflexivity|].
    exists (sample_row 2 "tt0000002" (Some "2005-01-15") (Some 1000000)
              (Some (dq "[{'id':28,'name':'Action'}]"))).
    split; reflexivity.
Defined.

(** ** What a resolved operation returns *)

Lemma items_are_dtos (item : JsObject -> Eval JsObject)
    (parse : option string -> Eval JsVal) (rows : list MovieRow)
    (dtos : list JsObject) :
  (forall r, item (list_columns r) = (g <- parse (genres r) ;; inr (list_dto r g))) ->
  Forall2 (fun r dto => item (list_columns r) = inr dto) rows dtos ->
  Forall2 (is_list_dto parse) rows dtos.
Proof.
  intros Hitem H. induction H as [|r dto rows dtos Hr _ IH]; constructor; auto.
  rewrite Hitem in Hr. apply bind_inr in Hr as [g [Hg Hd]].
  exists g. split; [exact Hg|]. now injection Hd.
Qed.

Lemma getPaginatedMovies_resolved mdb p dtos :
  settled (getPaginatedMovies mdb p) = Resolved dtos ->
  Forall2 (is_list_dto unguarded_parse)
    (select_rows (movies mdb) (SelectPage 50 ((p - 1) * 50))) dtos.
Proof.
  rewrite getPaginatedMovies_list_op. intros H.
  apply list_op_resolved in H as [_ H]. rewrite select_rows_page in H.
  eapply items_are_dtos; eauto using page_item_row.
Qed.

Lemma getMoviesByYear_resolved mdb y p o dtos :
  settled (getMoviesByYear mdb y p o) = Resolved dtos ->
  Forall2 (is_list_dto guarded_parse)
    (select_rows (movies mdb) (SelectByYear y o 50 ((p - 1) * 50))) dtos.
Proof.
  rewrite getMoviesByYear_list_op. intros H.
  apply list_op_resolved in H as [_ H]. rewrite select_rows_year in H.
  eapply items_are_dtos; eauto using year_item_row.
Qed.

Lemma getMoviesByGenre_resolved mdb g p dtos :
  settled (getMoviesByGenre mdb g p) = Resolved dtos ->
  Forall2 (is_list_dto guarded_parse)
    (select_rows (movies mdb)
       (SelectByGenre ("%" ++ g ++ "%") 50 ((p - 1) * 50))) dtos.
Proof.
  rewrite getMoviesByGenre_list_op. intros H.
  apply list_op_resolved in H as [_ H]. rewrite select_rows_genre in H.
  eapply items_are_dtos; eauto using genre_item_row.
Qed.

Lemma movie_details_row (r : MovieRow) (avg : option Q) :
  movie_details (detail_columns r) (Some {| averageRating := avg |})
  = (g <- guarded_parse (genres r) ;;
     pc <- guarded_parse (productionCompanies r) ;;
     inr (detail_dto r (rating_display avg) g pc)).
Proof.
  unfold movie_details.
  change (obj_get "genres" (detail_columns r)) with (of_text (genres r)).
  change (obj_get "productionCompanies" (detail_columns r))
    with (of_text (productionCompanies r)).
  change (obj_get "budget" (detail_columns r)) with (of_integer (budget r)).
  change (obj_get "runtime" (detail_columns r)) with (of_integer (runtime r)).
  rewrite budget_of_row, !truthy_text.
  replace (nullish_coalesce (of_integer (runtime r)) JNull)
    with (of_integer (runtime r)) by (destruct (runtime r); reflexivity).
  destruct avg; reflexivity.
Qed.

(** A resolved detail: both stores answered, the record exists, its two
    JSON texts were read, and the object is the record's detail. *)
Lemma getDetail_resolved mdb rdb id dto :
  settled (getMovieDetailsByImdbId mdb rdb id) = Resolved (Some dto) ->
  exists r g pc,
    catalog_record mdb id = Some r /\
    guarded_parse (genres r) = inr g /\
    guarded_parse (productionCompanies r) = inr pc /\
    dto = detail_dto r (rating_display (sql_avg (samples rdb r))) g pc.
Proof.
  destruct (movies_fault mdb (SelectByImdbId id)) as [e|] eqn:Hf.
  { rewrite (getDetail_catalog_fault _ _ _ _ Hf). discriminate. }
  destruct (catalog_record mdb id) as [r|] eqn:Hr.
  2:{ rewrite (getDetail_not_found _ _ _ Hf Hr). discriminate. }
  destruct (ratings_fault rdb (SelectAvgRating (JInt (movieId r)))) as [e|] eqn:Hq.
  { rewrite (getDetail_rating_fault _ _ _ _ _ Hf Hr Hq). discriminate. }
  rewrite (getDetail_found _ _ _ _ Hf Hr Hq), movie_details_row. simpl.
  destruct (guarded_parse (genres r)) as [e|g] eqn:Hg; simpl; [discriminate|].
  destruct (guarded_parse (productionCompanies r)) as [e|pc] eqn:Hpc; simpl;
    [discriminate|].
  intros [= <-]. exists r, g, pc. auto.
Qed.

(** The detail resolves when both stores answer and the two JSON texts
    of the record can be read. *)
Lemma getDetail_resolves mdb rdb id r g pc :
  movies_fault mdb (SelectByImdbId id) = None ->
  catalog_record mdb id = Some r ->
  ratings_fault rdb (SelectAvgRating (JInt (movieId r))) = None ->
  guarded_parse (genres r) = inr g ->
  guarded_parse (productionCompanies r) = inr pc ->
  settled (getMovieDetailsByImdbId mdb rdb id)
  = Resolved (Some (detail_dto r (rating_display (sql_avg (samples rdb r))) g pc)).
Proof.
  intros Hf Hr Hq Hg Hpc.
  rewrite (getDetail_found _ _ _ _ Hf Hr Hq), movie_details_row, Hg, Hpc.
  reflexivity.
Qed.

(** ** Pagination of the full listing *)




(** ** Decimal numerals *)

Lemma string_of_uint_all_digits (d : Decimal.uint) :
  all_digits (NilEmpty.string_of_uint d) = true.
Proof. induction d; simpl; auto. Qed.

Lemma digits_all_digits (n : Z) : 0 <= n -> all_digits (digits_of_Z n) = true.
Proof.
  intros Hn. unfold digits_of_Z.
  destruct n as [|p|p]; [reflexivity| |lia].
  simpl. unfold NilZero.string_of_uint.
  destruct (Pos.to_uint p) eqn:E; try apply string_of_uint_all_digits.
  reflexivity.
Qed.

Lemma digits_read_back (n : Z) : read_decimal (digits_of_Z n) = Some n.
Proof.
  unfold read_decimal, digits_of_Z.
  rewrite NilZero.isi.
  - simpl. now rewrite DecimalZ.of_to.
  - destruct n; simpl; try discriminate.
    intros [= H]. now apply DecimalPos.Unsigned.to_uint_nonnil in H.
  - destruct n; simpl; try discriminate.
    intros [= H]. now apply DecimalPos.Unsigned.to_uint_nonnil in H.
Qed.

(** ** The budget display rule *)

Lemma list_dto_budget parse r dto :
  is_list_dto parse r dto ->
  obj_get "budget" dto = JStr (budget_text (budget r)).
Proof. intros [g [_ ->]]. reflexivity. Qed.

(** Below [2^53] a double has its own digits as shortest numeral. *)
Lemma shortest_digits_exact (j : nat) (d : Z) :
  0 < d < 2 ^ 53 -> shortest_digits j d = d.
Proof.
  intros Hd. induction j as [|j IH]; cbn [shortest_digits].
  all: set (u := 10 ^ Z.of_nat _);
    assert (Hu : 0 < u) by (apply Z.pow_pos_nonneg; lia);
    pose proof (Z.mul_div_le d u Hu) as Hlo;
    pose proof (Z.mod_pos_bound d u Hu) as Hmod;
    pose proof (Z.div_mod d u ltac:(lia)) as Hdm;
    set (lo := d / u * u) in *;
    assert (Hlo' : lo <= d) by (unfold lo; lia);
    assert (Hhi : d < lo + u) by (unfold lo; lia);
    assert (Hok_hi : (round53 (lo + u) =? d) = false)
      by (apply Z.eqb_neq; intros E;
          destruct (Z.le_gt_cases (lo + u) (2 ^ 53)) as [Hs|Hl];
          [ rewrite round53_exact in E by lia; lia
          | pose proof (round53_large (lo + u) ltac:(lia)); lia ]);
    rewrite Hok_hi, andb_false_r;
    destruct ((0 <? lo) && (round53 lo =? d)) eqn:Hok_lo;
    try (apply andb_true_iff in Hok_lo as [Hpos E];
         apply Z.ltb_lt in Hpos; apply Z.eqb_eq in E;
         rewrite round53_exact in E by lia; exact E).
  - reflexivity.
  - exact IH.
Qed.

Lemma digits_of_negative (p : positive) :
  digits_of_Z (Zneg p) = String "-" (digits_of_Z (Zpos p)).
Proof. reflexivity. Qed.

(** Up to [2^53] an integer prints as its decimal digits. *)
Lemma integer_toString_exact (n : Z) :
  Z.abs n <= 2 ^ 53 -> integer_toString (round53 n) = digits_of_Z n.
Proof.
  intros Hn. rewrite (round53_exact n Hn).
  unfold integer_toString. rewrite (round53_exact n Hn).
  assert (H1024 : 2 ^ 53 < 2 ^ 1024) by (apply Z.pow_lt_mono_r; lia).
  assert (H21 : 2 ^ 53 < 10 ^ 21) by reflexivity.
  destruct (Z.eqb_spec (Z.abs n) 0) as [E0|E0].
  { replace n with 0 by lia. reflexivity. }
  destruct (Z.eqb_spec (Z.abs n) (2 ^ 1024)) as [E|_]; [lia|].
  assert (Hx : shortest_digits (Z.to_nat (Z.log2 (Z.abs n))) (Z.abs n)
               = Z.abs n).
  { destruct (Z.eq_dec (Z.abs n) (2 ^ 53)) as [E|E].
    - rewrite E. vm_compute. reflexivity.
    - apply shortest_digits_exact. lia. }
  rewrite Hx.
  destruct (Z.ltb_spec (Z.abs n) (10 ^ 21)) as [_|Hge]; [|lia].
  destruct n as [|q|q]; [contradiction|reflexivity|].
  change (Z.neg q <? 0) with true. cbv iota.
  now rewrite digits_of_negative.
Qed.

Lemma budget_text_exact (b : option Z) :
  exact_budget b -> budget_text b = budget_display b.
Proof.
  destruct b as [n|]; simpl; [|reflexivity].
  intros Hn. now rewrite integer_toString_exact.
Qed.

(** C6 as worded fails: a record with the stored budget
    9007199254740993, which is [2^53 + 1], is listed with the budget
    [$9007199254740992], the digits of the double that JavaScript gets. *)
Lemma budget_display_counterexample :
  exists r dto,
    movies costly_moviesDb = [r] /\
    budget r = Some 9007199254740993 /\
    settled (getPaginatedMovies costly_moviesDb 1) = Resolved [dto] /\
    obj_get "budget" dto = JStr "$9007199254740992" /\
    budget_display (budget r) = "$9007199254740993".
Proof.
  do 2 eexists. split; [reflexivity|]. split; [reflexivity|].
  split; [vm_compute; reflexivity|]. split; reflexivity.
Qed.

(** C6, amended. For a stored budget that is absent or an integer of
    absolute value at most [2^53], the budget in what each of the four
    operations returns is the display string of the stored budget; and
    that string is [N/A] for an absent budget, [$0] for 0, and for
    [n > 0] a dollar sign followed by the decimal digits of [n] and
    nothing else. *)
Theorem budget_display_uniform :
  (forall mdb p dtos,
      settled (getPaginatedMovies mdb p) = Resolved dtos ->
      Forall2 (fun r dto =>
                 exact_budget (budget r) ->
                 obj_get "budget" dto = JStr (budget_display (budget r)))
        (select_rows (movies mdb) (SelectPage 50 ((p - 1) * 50))) dtos) /\
  (forall mdb y p o dtos,
      settled (getMoviesByYear mdb y p o) = Resolved dtos ->
      Forall2 (fun r dto =>
                 exact_budget (budget r) ->
                 obj_get "budget" dto = JStr (budget_display (budget r)))
        (select_rows (movies mdb) (SelectByYear y o 50 ((p - 1) * 50))) dtos) /\
  (forall mdb g p dtos,
      settled (getMoviesByGenre mdb g p) = Resolved dtos ->
      Forall2 (fun r dto =>
                 exact_budget (budget r) ->
                 obj_get "budget" dto = JStr (budget_display (budget r)))
        (select_rows (movies mdb)
           (SelectByGenre ("%" ++ g ++ "%") 50 ((p - 1) * 50))) dtos) /\
  (forall mdb rdb id dto,
      settled (getMovieDetailsByImdbId mdb rdb id) = Resolved (Some dto) ->
      exists r, catalog_record mdb id = Some r /\
                (exact_budget (budget r) ->
                 obj_get "budget" dto = JStr (budget_display (budget r)))) /\
  budget_display None = "N/A" /\
  budget_display (Some 0) = "$0" /\
  (forall n, 0 < n ->
     exists digits, budget_display (Some n) = String "$" digits /\
                    all_digits digits = true /\
                    read_decimal digits = Some n).
Proof.
  assert (Hlist : forall parse r dto,
             is_list_dto parse r dto -> exact_budget (budget r) ->
             obj_get "budget" dto = JStr (budget_display (budget r))).
  { intros parse r dto H Hb.
    rewrite (list_dto_budget _ _ _ H). now rewrite budget_text_exact. }
  repeat split.
  - intros mdb p dtos H. apply getPaginatedMovies_resolved in H.
    eapply Forall2_impl; [|exact H]. apply Hlist.
  - intros mdb y p o dtos H. apply getMoviesByYear_resolved in H.
    eapply Forall2_impl; [|exact H]. apply Hlist.
  - intros mdb g p dtos H. apply getMoviesByGenre_resolved in H.
    eapply Forall2_impl; [|exact H]. apply Hlist.
  - intros mdb rdb id dto H.
    apply getDetail_resolved in H as [r [g [pc [Hr [_ [_ ->]]]]]].
    exists r. split; [exact Hr|]. intros Hb.
    change (obj_get "budget" (detail_dto r _ g pc))
      with (JStr (budget_text (budget r))).
    now rewrite budget_text_exact.
  - intros n Hn. exists (digits_of_Z n). split; [reflexivity|].
    split; [apply digits_all_digits; lia|apply digits_read_back].
Qed.

Lemma budget_display_uniform_witness :
  (exists dtos,
      settled (getPaginatedMovies sample_moviesDb 1) = Resolved dtos /\
      Forall2 (fun r dto =>
                 exact_budget (budget r) ->
                 obj_get "budget" dto = JStr (budget_display (budget r)))
        sample_movies dtos) /\
  (0 < 1000000 /\
   exists digits, budget_display (Some 1000000) = String "$" digits /\
                  all_digits digits = true /\
                  read_decimal digits = Some 1000000).
Proof.
  split.
  - eexists. split; [vm_compute; reflexivity|].
    apply (proj1 budget_display_uniform sample_moviesDb 1).
    vm_compute. reflexivity.
  - split; [lia|].
    apply (proj2 (proj2 (proj2 (proj2 (proj2 (proj2 budget_display_uniform)))))).
    lia.
Defined.

(** ** The internal id stays inside *)

(** C9. No object that one of the four operations returns has a
    [movieId] property, and each is built from the record with its
    internal id blanked: the id takes part only in selecting the rating
    samples of the detail. *)
Theorem internal_id_not_in_dtos :
  (forall mdb p dtos,
      settled (getPaginatedMovies mdb p) = Resolved dtos ->
      Forall2 (fun r dto => ~ In "movieId" (obj_keys dto) /\
                            is_list_dto unguarded_parse (erase_id r) dto)
        (select_rows (movies mdb) (SelectPage 50 ((p - 1) * 50))) dtos) /\
  (forall mdb y p o dtos,
      settled (getMoviesByYear mdb y p o) = Resolved dtos ->
      Forall2 (fun r dto => ~ In "movieId" (obj_keys dto) /\
                            is_list_dto guarded_parse (erase_id r) dto)
        (select_rows (movies mdb) (SelectByYear y o 50 ((p - 1) * 50))) dtos) /\
  (forall mdb g p dtos,
      settled (getMoviesByGenre mdb g p) = Resolved dtos ->
      Forall2 (fun r dto => ~ In "movieId" (obj_keys dto) /\
                            is_list_dto guarded_parse (erase_id r) dto)
        (select_rows (movies mdb)
           (SelectByGenre ("%" ++ g ++ "%") 50 ((p - 1) * 50))) dtos) /\
  (forall mdb rdb id dto,
      settled (getMovieDetailsByImdbId mdb rdb id) = Resolved (Some dto) ->
      ~ In "movieId" (obj_keys dto) /\
      exists r g pc,
        catalog_record mdb id = Some r /\
        dto = detail_dto (erase_id r)
                (rating_display (sql_avg (samples rdb r))) g pc).
Proof.
  assert (Hlist : forall parse r dto,
             is_list_dto parse r dto ->
             ~ In "movieId" (obj_keys dto) /\
             is_list_dto parse (erase_id r) dto).
  { intros parse r dto [g [Hg ->]]. split.
    - not_a_key.
    - exists g. split; [exact Hg|reflexivity]. }
  repeat split.
  - intros mdb p dtos H. apply getPaginatedMovies_resolved in H.
    eapply Forall2_impl; [|exact H]. apply Hlist.
  - intros mdb y p o dtos H. apply getMoviesByYear_resolved in H.
    eapply Forall2_impl; [|exact H]. apply Hlist.
  - intros mdb g p dtos H. apply getMoviesByGenre_resolved in H.
    eapply Forall2_impl; [|exact H]. apply Hlist.
  - apply getDetail_resolved in H as [r [g [pc [_ [_ [_ ->]]]]]].
    not_a_key.
  - apply getDetail_resolved in H as [r [g [pc [Hr [_ [_ ->]]]]]].
    exists r, g, pc. split; [exact Hr|reflexivity].
Qed.

Lemma internal_id_not_in_dtos_witness :
  exists dto,
    settled (getMovieDetailsByImdbId sample_moviesDb sample_ratingsDb "tt0000002")
    = Resolved (Some dto) /\
    ~ In "movieId" (obj_keys dto).
Proof.
  eexists. split; [vm_compute; reflexivity|].
  apply (proj2 (proj2 (proj2 internal_id_not_in_dtos))
           sample_moviesDb sample_ratingsDb "tt0000002").
  vm_compute. reflexivity.
Defined.

(** ** The average rating *)


Lemma sql_avg_mean (l : list Q) :
  l <> [] -> sql_avg l = Some (round_double (mean l)).
Proof. destruct l; [congruence|reflexivity]. Qed.

(** No samples: null.  Samples 4 and 5: 4.5.  Samples 4, 4 and 5: 4.3. *)
Example rating_display_none : rating_display (sql_avg []) = JNull.
Proof. reflexivity. Qed.

Example rating_display_4_5 : rating_display (sql_avg [4; 5]%Q) = JNum 45 1.
Proof. vm_compute. reflexivity. Qed.

Example rating_display_4_4_5 : rating_display (sql_avg [4; 4; 5]%Q) = JNum 43 1.
Proof. vm_compute. reflexivity. Qed.

(** Seventeen samples 1 and three samples 2 have the mean 1.15; the
    double nearest to it is below 1.15, and one decimal shows 1.1. *)
Example rating_display_1_15 :
  (mean (repeat 1 17 ++ repeat 2 3)%list == 23 # 20)%Q /\
  rating_display (sql_avg (repeat 1%Q 17 ++ repeat 2%Q 3)%list) = JNum 11 1.
Proof. split; vm_compute; reflexivity. Qed.

Example getDetail_sample_4_5 :
  exists dto,
    settled (getMovieDetailsByImdbId sample_moviesDb sample_ratingsDb "tt0000001")
    = Resolved (Some dto) /\
    obj_get "averageRating" dto = JNum 45 1.
Proof. eexists. split; vm_compute; reflexivity. Qed.


(** The double nearest to 0 is 0. *)
Lemma round_double_zero (x : Q) : (x == 0)%Q -> round_double x = 0%Q.
Proof.
  intros Hx. unfold round_double.
  replace (Qnum x) with 0; [reflexivity|].
  unfold Qeq in Hx. simpl in Hx. lia.
Qed.

Lemma rating_display_zero (l : list Q) :
  l <> [] -> (mean l == 0)%Q -> rating_display (sql_avg l) = JNull.
Proof.
  intros Hl Hm. rewrite (sql_avg_mean l Hl), (round_double_zero _ Hm).
  reflexivity.
Qed.

(** C1. The record [tt0000004] has the one rating sample 0: its mean is
    0, which one decimal shows as 0, yet the detail carries
    [averageRating: null]. *)
Theorem getDetail_sample_zero_is_null :
  exists r dto,
    catalog_record sample_moviesDb "tt0000004" = Some r /\
    samples sample_ratingsDb r = [0%Q] /\
    parseFloat_toFixed1 (mean (samples sample_ratingsDb r)) = JNum 0 0 /\
    settled (getMovieDetailsByImdbId sample_moviesDb sample_ratingsDb "tt0000004")
    = Resolved (Some dto) /\
    obj_get "averageRating" dto = JNull.
Proof. do 2 eexists. repeat split; vm_compute; reflexivity. Qed.

(** C10. A record with at least one rating sample whose mean is exactly
    0 gets [averageRating: null]: when both stores answer and the
    record's JSON texts can be read, the detail resolves and its
    [averageRating] is null. *)
Theorem zero_mean_rating_is_null (mdb : MoviesDb) (rdb : RatingsDb)
    (id : string) (r : MovieRow) (g pc : JsVal) :
  movies_fault mdb (SelectByImdbId id) = None ->
  catalog_record mdb id = Some r ->
  ratings_fault rdb (SelectAvgRating (JInt (movieId r))) = None ->
  guarded_parse (genres r) = inr g ->
  guarded_parse (productionCompanies r) = inr pc ->
  samples rdb r <> [] ->
  (mean (samples rdb r) == 0)%Q ->
  exists dto,
    settled (getMovieDetailsByImdbId mdb rdb id) = Resolved (Some dto) /\
    obj_get "averageRating" dto = JNull.
Proof.
  intros Hf Hr Hq Hg Hpc Hs Hm.
  eexists. split.
  - apply (getDetail_resolves mdb rdb id r g pc); assumption.
  - simpl. apply rating_display_zero; assumption.
Qed.

Lemma zero_mean_rating_is_null_witness :
  exists dto,
    settled (getMovieDetailsByImdbId sample_moviesDb zero_ratingsDb "tt0000001")
    = Resolved (Some dto) /\
    obj_get "averageRating" dto = JNull.
Proof.
  apply (zero_mean_rating_is_null sample_moviesDb zero_ratingsDb "tt0000001"
           (sample_row 1 "tt0000001" (Some "2005-03-01") (Some 0)
              (Some (dq "[{'id':18,'name':'Drama'}]")))
           (JArr [JObj [("id", JInt 18); ("name", JStr "Drama")]])
           (JArr [])).
  - reflexivity.
  - reflexivity.
  - reflexivity.
  - vm_compute. reflexivity.
  - reflexivity.
  - vm_compute. discriminate.
  - vm_compute. reflexivity.
Defined.

(** ** Stored JSON texts *)

(** C2. The record [tt0000004] has no genre text.  The full listing
    returns it with [genres: null], since [JSON.parse(null)] is [null];
    the listing by year returns the same record with [genres: []]. *)
Theorem listPage_null_genres_is_null :
  exists r d1 d2 d3 d4 y1 y2 y3,
    nth_error sample_movies 3 = Some r /\
    imdbId r = "tt0000004" /\ genres r = None /\
    settled (getPaginatedMovies sample_moviesDb 1) = Resolved [d1; d2; d3; d4] /\
    obj_get "imdbId" d4 = JStr "tt0000004" /\
    obj_get "genres" d4 = JNull /\
    settled (getMoviesByYear sample_moviesDb "2005" 1 asc) = Resolved [y1; y2; y3] /\
    obj_get "imdbId" y3 = JStr "tt0000004" /\
    obj_get "genres" y3 = JArr [].
Proof. do 8 eexists. repeat split; vm_compute; reflexivity. Qed.

(** ** Sorting *)

Section Sorting.

Context {A : Type} (le : A -> A -> bool).

Hypothesis le_total : forall a b, le a b = true \/ le b a = true.
Hypothesis le_trans : forall a b c, le a b = true -> le b c = true -> le a c = true.

Lemma insert_sorted_perm (x : A) (l : list A) :
  Permutation (insert_sorted le x l) (x :: l).
Proof.
  induction l as [|y l IH]; simpl; [reflexivity|].
  destruct (le x y); [reflexivity|].
  rewrite IH. apply perm_swap.
Qed.

Lemma order_by_perm (l : list A) : Permutation (order_by le l) l.
Proof.
  induction l as [|x l IH]; simpl; [reflexivity|].
  rewrite insert_sorted_perm. now constructor.
Qed.



End Sorting.

(** ** The order of release dates *)












(** ** The year filter *)




Lemma select_rows_incl (t : list MovieRow) (q : CatalogQuery) (r : MovieRow) :
  In r (select_rows t q) -> In r t.
Proof.
  destruct q; simpl; intros H.
  - eapply limit_offset_incl; eauto.
  - apply filter_In in H. tauto.
  - apply limit_offset_incl in H.
    apply (Permutation_in _ (order_by_perm _ _)) in H.
    apply filter_In in H. tauto.
  - apply limit_offset_incl in H. apply filter_In in H. tauto.
Qed.

(** ** Listing by year *)




(** ** LIKE *)

Lemma in_all_ascii (c : ascii) : In c all_ascii.
Proof.
  unfold all_ascii. rewrite <- (ascii_nat_embedding c).
  apply in_map, in_seq. pose proof (nat_ascii_bounded c). lia.
Qed.

(** LIKE compares two characters as [same_letter] does. *)
Lemma like_char_same_letter (x y : ascii) : like_char x y = same_letter x y.
Proof.
  assert (H : forallb (fun a =>
                forallb (fun b => Bool.eqb (like_char a b) (same_letter a b))
                  all_ascii) all_ascii = true)
    by (vm_compute; reflexivity).
  rewrite forallb_forall in H. specialize (H x (in_all_ascii x)).
  rewrite forallb_forall in H. specialize (H y (in_all_ascii y)).
  now apply Bool.eqb_prop.
Qed.

Lemma like_percent_step (p t : string) :
  patternCompare (String "%" p) t
  = patternCompare p t || match t with
                | EmptyString => false
                | String _ t' => patternCompare (String "%" p) t'
                end.
Proof. destruct t; reflexivity. Qed.

Lemma like_literal_step (c : ascii) (p t : string) :
  c <> "%"%char -> c <> "_"%char ->
  patternCompare (String c p) t
  = match t with
    | EmptyString => false
    | String d t' => like_char c d && patternCompare p t'
    end.
Proof.
  intros H1 H2.
  destruct c as [[] [] [] [] [] [] [] []]; try reflexivity; congruence.
Qed.

(** [%] at the head of a pattern: the rest matches some suffix. *)
Lemma like_percent (p t : string) :
  patternCompare (String "%" p) t = true <->
  exists a b, t = a ++ b /\ patternCompare p b = true.
Proof.
  induction t as [|c t IH]; rewrite like_percent_step.
  - rewrite orb_false_r. split.
    + intros H. exists EmptyString, EmptyString. auto.
    + intros [a [b [Hab H]]].
      destruct a; [|discriminate]. simpl in Hab. now subst.
  - rewrite orb_true_iff, IH. split.
    + intros [H | [a [b [-> H]]]].
      * exists EmptyString, (String c t). auto.
      * exists (String c a), b. auto.
    + intros [a [b [Hab H]]]. destruct a as [|c' a]; simpl in Hab.
      * left. now subst.
      * right. injection Hab as -> ->. eauto.
Qed.

Lemma like_percent_only (t : string) : patternCompare "%" t = true.
Proof.
  apply like_percent. exists t, EmptyString. split; [|reflexivity].
  induction t; simpl; congruence.
Qed.

(** A run of literal characters at the head of a pattern matches a
    prefix of the same length, letter case apart. *)
Lemma like_literals (g p t : string) :
  wildcard_free g = true ->
  patternCompare (g ++ p) t = true <->
  exists m r, t = m ++ r /\ same_nocase g m = true /\ patternCompare p r = true.
Proof.
  revert t. induction g as [|c g IH]; intros t Hg.
  - simpl. split.
    + intros H. exists EmptyString, t. auto.
    + intros [m [r [-> [Hm H]]]]. destruct m; [exact H|discriminate].
  - simpl in Hg. apply andb_true_iff in Hg as [Hc Hg].
    apply andb_true_iff in Hc as [Hc1 Hc2].
    apply negb_true_iff, Ascii.eqb_neq in Hc1, Hc2.
    simpl append. rewrite (like_literal_step c _ t Hc1 Hc2).
    destruct t as [|d t].
    + split; [discriminate|]. intros [m [r [Ht [Hm _]]]].
      destruct m; simpl in *; discriminate.
    + rewrite andb_true_iff, (IH t Hg). split.
      * intros [Hcd [m [r [-> [Hm H]]]]].
        exists (String d m), r. simpl.
        rewrite <- like_char_same_letter, Hcd, Hm. auto.
      * intros [m [r [Ht [Hm H]]]]. destruct m as [|d' m]; [discriminate|].
        simpl in Ht, Hm. injection Ht as -> ->.
        apply andb_true_iff in Hm as [Hcd Hm].
        rewrite <- like_char_same_letter in Hcd.
        split; [exact Hcd|]. exists m, r. auto.
Qed.

Lemma upto_nul_free (s : string) : nul_free s = true -> upto_nul s = s.
Proof.
  induction s as [|c s IH]; simpl; [reflexivity|].
  destruct (Ascii.eqb c "000"); simpl; [discriminate|].
  intros H. now rewrite IH.
Qed.

Lemma nul_free_app (a b : string) :
  nul_free (a ++ b) = nul_free a && nul_free b.
Proof.
  induction a as [|c a IH]; simpl; [reflexivity|].
  now rewrite IH, andb_assoc.
Qed.

Lemma upto_nul_app (v rest : string) :
  nul_free v = true -> upto_nul (v ++ String "000" rest) = v.
Proof.
  induction v as [|c v IH]; simpl; [reflexivity|].
  destruct (Ascii.eqb c "000"); simpl; [discriminate|].
  intros H. now rewrite IH.
Qed.

(** [upto_nul] computes the part of a text before its first NUL. *)
Lemma before_nul_iff (text v : string) :
  before_nul text v <-> v = upto_nul text.
Proof.
  unfold before_nul. split.
  - intros [Hv [->|[rest ->]]].
    + now rewrite upto_nul_free.
    + now rewrite upto_nul_app.
  - intros ->. induction text as [|c text [IH1 IH2]]; simpl.
    + auto.
    + destruct (Ascii.eqb c "000") eqn:E; simpl.
      * split; [reflexivity|]. right. exists text.
        apply Ascii.eqb_eq in E. now subst.
      * rewrite E, IH1. split; [reflexivity|].
        destruct IH2 as [H|[rest H]].
        -- left. now rewrite <- H.
        -- right. exists rest. now rewrite H at 1.
Qed.

(** The pattern of [getMoviesByGenre], for a genre without wildcards and
    without a NUL character. *)
Lemma like_contains_nocase (g t : string) :
  wildcard_free g = true -> nul_free g = true ->
  like ("%" ++ g ++ "%") t = true <-> contains_nocase g (upto_nul t).
Proof.
  intros Hg Hn. unfold like.
  rewrite (upto_nul_free ("%" ++ g ++ "%"))
    by (simpl; rewrite nul_free_app, Hn; reflexivity).
  generalize (upto_nul t). clear t. intros t.
  change ("%" ++ g ++ "%") with (String "%" (g ++ "%")).
  rewrite like_percent. unfold contains_nocase. split.
  - intros [a [b [-> H]]].
    apply (like_literals g "%" b Hg) in H as [m [r [-> [Hm _]]]].
    exists a, m, r. auto.
  - intros [pre [mid [post [-> Hm]]]].
    exists pre, (mid ++ post). split; [reflexivity|].
    apply (like_literals g "%" _ Hg).
    exists mid, post. auto using like_percent_only.
Qed.

Lemma starts_with_iff (g t : string) :
  starts_with g t = true <-> exists post, t = g ++ post.
Proof.
  revert t. induction g as [|c g IH]; intros t; simpl.
  - split; eauto.
  - destruct t as [|d t].
    + split; [discriminate|]. intros [post H]. discriminate.
    + rewrite andb_true_iff, Ascii.eqb_eq, IH. split.
      * intros [-> [post ->]]. eauto.
      * intros [post [= -> ->]]. eauto.
Qed.

Lemma is_substring_iff (g t : string) :
  is_substring g t = true <-> contains g t.
Proof.
  unfold contains. induction t as [|c t IH]; simpl.
  - rewrite orb_false_r, starts_with_iff. split.
    + intros [post H]. exists EmptyString, post. exact H.
    + intros [pre [post H]]. destruct pre; [eauto|discriminate].
  - rewrite orb_true_iff, starts_with_iff, IH. split.
    + intros [[post H] | [pre [post ->]]].
      * exists EmptyString, post. exact H.
      * exists (String c pre), post. reflexivity.
    + intros [pre [post H]]. destruct pre as [|c' pre]; simpl in H.
      * left. eauto.
      * right. injection H as -> ->. eauto.
Qed.

(** ** Listing by genre *)

(** C3 as worded fails: the genre text of [tt0000002] has
    [Action], with a capital, and neither [action] nor [A_tion] is a
    substring of it, yet both requests return the record. *)
Lemma listByGenre_case_sensitive_counterexample :
  exists r dto,
    In r (movies sample_moviesDb) /\
    imdbId r = "tt0000002" /\
    genres r = Some (dq "[{'id':28,'name':'Action'}]") /\
    ~ contains "action" (dq "[{'id':28,'name':'Action'}]") /\
    ~ contains "A_tion" (dq "[{'id':28,'name':'Action'}]") /\
    settled (getMoviesByGenre sample_moviesDb "action" 1) = Resolved [dto] /\
    settled (getMoviesByGenre sample_moviesDb "A_tion" 1) = Resolved [dto] /\
    obj_get "imdbId" dto = JStr "tt0000002".
Proof.
  exists (sample_row 2 "tt0000002" (Some "2005-01-15") (Some 1000000)
            (Some (dq "[{'id':28,'name':'Action'}]"))).
  eexists. split; [simpl; tauto|].
  split; [reflexivity|]. split; [reflexivity|].
  split; [intros H; apply is_substring_iff in H; vm_compute in H; discriminate|].
  split; [intros H; apply is_substring_iff in H; vm_compute in H; discriminate|].
  split; [vm_compute; reflexivity|].
  split; vm_compute; reflexivity.
Qed.

(** C3, amended. For a genre [g] that has neither of the LIKE wildcards
    [%] and [_] nor a NUL character, and any page [p],
    [getMoviesByGenre g p] issues one statement, with the pattern [%g%],
    limit 50 and, while [(p - 1) * 50] is within [2^53], that offset; a
    record is selected exactly when it has a genre text that, read up to
    its first NUL character, contains [g] up to the case of the letters
    A-Z; a resolved call returns the items of the page of the selected
    records, in table order, at most 50; and it resolves when the store
    answers and the genre texts can be read. *)
Theorem listByGenre_loose_match (mdb : MoviesDb) (g : string) (p : Z) :
  wildcard_free g = true -> nul_free g = true ->
  issued (getMoviesByGenre mdb g p) = [OnMovies (genre_statement g p)] /\
  (Z.abs ((p - 1) * 50) <= 2 ^ 53 ->
   genre_statement g p = SelectByGenre ("%" ++ g ++ "%") 50 ((p - 1) * 50)) /\
  (forall r, like_column ("%" ++ g ++ "%") (genres r) = true <->
             exists text v, genres r = Some text /\ before_nul text v /\
                            contains_nocase g v) /\
  (forall dtos,
      settled (getMoviesByGenre mdb g p) = Resolved dtos ->
      (List.length dtos <= 50)%nat /\
      Forall2 (is_list_dto guarded_parse)
        (firstn 50
           (skipn (Z.to_nat ((p - 1) * 50))
              (filter (fun r => like_column ("%" ++ g ++ "%") (genres r))
                 (movies mdb)))) dtos) /\
  (movies_fault mdb (genre_statement g p) = None ->
   Forall genres_readable (movies mdb) ->
   exists dtos, settled (getMoviesByGenre mdb g p) = Resolved dtos).
Proof.
  intros Hg Hn. split; [|split; [|split; [|split]]].
  - rewrite getMoviesByGenre_list_op. apply list_op_issued.
  - intros Hs. unfold genre_statement. now rewrite page_offset_exact_abs.
  - intros r. unfold like_column. destruct (genres r) as [text|].
    + rewrite (like_contains_nocase g text Hg Hn). split.
      * intros H. exists text, (upto_nul text).
        split; [reflexivity|]. split; [now apply before_nul_iff|exact H].
      * intros [text' [v [[= <-] [Hv H]]]].
        apply before_nul_iff in Hv. now subst.
    + split; [discriminate|]. intros [text [v [H _]]]. discriminate.
  - intros dtos H. apply getMoviesByGenre_resolved in H.
    simpl select_rows in H. rewrite limit_offset_page in H.
    split; [|exact H].
    rewrite <- (Forall2_length H). apply firstn_le_length.
  - intros Hf Hall. rewrite getMoviesByGenre_list_op.
    apply list_op_resolves; [exact Hf|].
    apply Forall_forall. intros r Hr.
    apply select_rows_incl in Hr.
    rewrite Forall_forall in Hall. destruct (Hall r Hr) as [v Hv].
    change (columns (genre_statement g p) r) with (list_columns r).
    rewrite genre_item_row, Hv. simpl. eauto.
Qed.

Lemma listByGenre_loose_match_witness :
  wildcard_free "action" = true /\ nul_free "action" = true /\
  exists dtos,
    settled (getMoviesByGenre sample_moviesDb "action" 1) = Resolved dtos /\
    (List.length dtos <= 50)%nat.
Proof.
  split; [reflexivity|]. split; [reflexivity|].
  destruct (listByGenre_loose_match sample_moviesDb "action" 1 eq_refl eq_refl)
    as [_ [_ [_ [Hres Htotal]]]].
  destruct Htotal as [dtos Hdtos]; [reflexivity| |].
  - repeat constructor; eexists; vm_compute; reflexivity.
  - exists dtos. split; [exact Hdtos|]. now apply Hres.
Defined.

(** * Further properties of the service *)

(** ** Store errors in the list operations *)

(** X1. When the catalog store fails the statement of a list operation
    with [e], the operation has issued that one statement and its promise
    is rejected with [e] itself. *)
Theorem list_services_reject_with_store_error (mdb : MoviesDb) (e : JsError) :
  (forall p, movies_fault mdb (page_statement p) = Some e ->
     getPaginatedMovies mdb p = ([OnMovies (page_statement p)], Rejected e)) /\
  (forall y p o, movies_fault mdb (year_statement y o p) = Some e ->
     getMoviesByYear mdb y p o
     = ([OnMovies (year_statement y o p)], Rejected e)) /\
  (forall g p, movies_fault mdb (genre_statement g p) = Some e ->
     getMoviesByGenre mdb g p
     = ([OnMovies (genre_statement g p)], Rejected e)).
Proof.
  repeat split; intros;
    rewrite ?getPaginatedMovies_list_op, ?getMoviesByYear_list_op,
      ?getMoviesByGenre_list_op;
    unfold list_op, moviesDb_all; rewrite H; reflexivity.
Qed.

Lemma list_services_reject_with_store_error_witness :
  getPaginatedMovies broken_moviesDb 3
  = ([OnMovies (page_statement 3)], Rejected (StoreError "DB error")) /\
  getMoviesByYear broken_moviesDb "2005" 1 desc
  = ([OnMovies (year_statement "2005" desc 1)], Rejected (StoreError "DB error")) /\
  getMoviesByGenre broken_moviesDb "Drama" 2
  = ([OnMovies (genre_statement "Drama" 2)], Rejected (StoreError "DB error")).
Proof.
  pose proof (list_services_reject_with_store_error broken_moviesDb
                (StoreError "DB error")) as [H1 [H2 H3]].
  split; [|split].
  - apply H1. reflexivity.
  - apply H2. reflexivity.
  - apply H3. reflexivity.
Defined.

(** ** Records that cannot be read *)

Lemma array_map_first_failure {A B} (f : A -> Eval B) (rows : list A) :
  Exists (fun a => exists e, f a = inl e) rows ->
  exists a e, In a rows /\ f a = inl e /\ array_map f rows = inl e.
Proof.
  induction rows as [|a rows IH]; intros H; [inversion H|].
  simpl. destruct (f a) as [e|b] eqn:Hf.
  - exists a, e. simpl. auto.
  - assert (H' : Exists (fun a => exists e, f a = inl e) rows).
    { inversion H as [? ? [e He]|]; subst; [congruence|assumption]. }
    destruct (IH H') as [a' [e [Hin [Ha' Hm]]]].
    exists a', e. simpl. rewrite Hm. auto.
Qed.

Lemma JSON_parse_text_error (text : string) (e : JsError) :
  JSON_parse_text text = inl e -> e = SyntaxError text.
Proof.
  unfold JSON_parse_text.
  destruct (parse_value _ text) as [[v rest]|]; [|now intros [= <-]].
  destruct (skip_ws rest); [discriminate|now intros [= <-]].
Qed.

Lemma guarded_parse_error (t : option string) (e : JsError) :
  guarded_parse t = inl e -> exists text, t = Some text /\ e = SyntaxError text.
Proof.
  destruct t as [text|]; simpl; [|discriminate].
  destruct (String.eqb text EmptyString); [discriminate|].
  intros H. apply JSON_parse_text_error in H. eauto.
Qed.

Lemma unguarded_parse_error (t : option string) (e : JsError) :
  unguarded_parse t = inl e -> exists text, t = Some text /\ e = SyntaxError text.
Proof.
  destruct t as [text|]; unfold unguarded_parse, JSON_parse; simpl.
  - intros H. apply JSON_parse_text_error in H. eauto.
  - vm_compute. discriminate.
Qed.

(** One unreadable row among those selected fails the whole operation. *)
Lemma list_op_unreadable mdb q item parse :
  (forall r, item (list_columns r) = (g <- parse (genres r) ;; inr (list_dto r g))) ->
  columns q = list_columns ->
  movies_fault mdb q = None ->
  Exists (unreadable parse) (select_rows (movies mdb) q) ->
  exists r e, In r (select_rows (movies mdb) q) /\
              parse (genres r) = inl e /\
              settled (list_op mdb q item) = Uncaught e.
Proof.
  intros Hitem Hcols Hf Hex.
  rewrite (list_op_answer _ _ _ Hf). unfold answer_all. rewrite Hcols.
  destruct (array_map_first_failure item
              (map list_columns (select_rows (movies mdb) q)))
    as [a [e [Hin [Ha Hm]]]].
  - apply Exists_exists in Hex as [r [Hr [e He]]].
    apply Exists_exists. exists (list_columns r). split.
    + now apply in_map.
    + exists e. rewrite Hitem, He. reflexivity.
  - apply in_map_iff in Hin as [r [<- Hr]].
    exists r, e. split; [exact Hr|]. split.
    + rewrite Hitem in Ha. destruct (parse (genres r)); simpl in Ha; congruence.
    + rewrite Hm. reflexivity.
Qed.

(** X2. A list operation returns all items of its page or none: when one
    of the selected rows has a genre text that [JSON.parse] rejects, the
    call ends with the uncaught SyntaxError of such a text, whatever the
    other rows hold.  The genre texts of the selected rows are taken
    within the reach of the model's parser. *)
Theorem unreadable_record_fails_the_page (mdb : MoviesDb) :
  (forall p,
     movies_fault mdb (page_statement p) = None ->
     Forall plain_genres (select_rows (movies mdb) (page_statement p)) ->
     Exists (unreadable unguarded_parse)
       (select_rows (movies mdb) (page_statement p)) ->
     exists r text,
       In r (select_rows (movies mdb) (page_statement p)) /\
       genres r = Some text /\
       settled (getPaginatedMovies mdb p) = Uncaught (SyntaxError text)) /\
  (forall y p o,
     movies_fault mdb (year_statement y o p) = None ->
     Forall plain_genres (select_rows (movies mdb) (year_statement y o p)) ->
     Exists (unreadable guarded_parse)
       (select_rows (movies mdb) (year_statement y o p)) ->
     exists r text,
       In r (select_rows (movies mdb) (year_statement y o p)) /\
       genres r = Some text /\
       settled (getMoviesByYear mdb y p o) = Uncaught (SyntaxError text)) /\
  (forall g p,
     movies_fault mdb (genre_statement g p) = None ->
     Forall plain_genres (select_rows (movies mdb) (genre_statement g p)) ->
     Exists (unreadable guarded_parse)
       (select_rows (movies mdb) (genre_statement g p)) ->
     exists r text,
       In r (select_rows (movies mdb) (genre_statement g p)) /\
       genres r = Some text /\
       settled (getMoviesByGenre mdb g p) = Uncaught (SyntaxError text)).
Proof.
  split; [|split].
  - intros p Hf _ Hex.
    destruct (list_op_unreadable mdb (page_statement p) page_item
                unguarded_parse page_item_row eq_refl Hf Hex)
      as [r [e [Hr [He Hs]]]].
    destruct (unguarded_parse_error _ _ He) as [text [Ht ->]].
    exists r, text. auto.
  - intros y p o Hf _ Hex.
    destruct (list_op_unreadable mdb (year_statement y o p) year_item
                guarded_parse year_item_row eq_refl Hf Hex)
      as [r [e [Hr [He Hs]]]].
    destruct (guarded_parse_error _ _ He) as [text [Ht ->]].
    exists r, text. auto.
  - intros g p Hf _ Hex.
    destruct (list_op_unreadable mdb (genre_statement g p) genre_item
                guarded_parse genre_item_row eq_refl Hf Hex)
      as [r [e [Hr [He Hs]]]].
    destruct (guarded_parse_error _ _ He) as [text [Ht ->]].
    exists r, text. auto.
Qed.

Lemma unreadable_record_fails_the_page_witness :
  exists r text,
    In r (select_rows damaged_movies (page_statement 1)) /\
    genres r = Some text /\
    settled (getPaginatedMovies damaged_moviesDb 1) = Uncaught (SyntaxError text).
Proof.
  apply (proj1 (unreadable_record_fails_the_page damaged_moviesDb) 1).
  - reflexivity.
  - repeat constructor.
  - apply Exists_cons_tl, Exists_cons_hd.
    eexists. vm_compute. reflexivity.
Defined.

(** ** Absent and empty genre texts *)

Lemma guarded_parse_no_text (r : MovieRow) (g : JsVal) :
  no_genre_text r -> guarded_parse (genres r) = inr g -> g = JArr [].
Proof. intros [H|H]; rewrite H; simpl; congruence. Qed.

(** X3. In the listings by year and by genre and in the detail, a record
    whose genre text is absent or empty is returned with [genres: []];
    the detail treats the production companies the same way. *)
Theorem no_genre_text_gives_empty_array :
  (forall mdb y p o dtos,
      settled (getMoviesByYear mdb y p o) = Resolved dtos ->
      Forall2 (fun r dto => no_genre_text r -> obj_get "genres" dto = JArr [])
        (select_rows (movies mdb) (year_statement y o p)) dtos) /\
  (forall mdb g p dtos,
      settled (getMoviesByGenre mdb g p) = Resolved dtos ->
      Forall2 (fun r dto => no_genre_text r -> obj_get "genres" dto = JArr [])
        (select_rows (movies mdb) (genre_statement g p)) dtos) /\
  (forall mdb rdb id dto,
      settled (getMovieDetailsByImdbId mdb rdb id) = Resolved (Some dto) ->
      exists r, catalog_record mdb id = Some r /\
        (no_genre_text r -> obj_get "genres" dto = JArr []) /\
        (productionCompanies r = None \/
         productionCompanies r = Some EmptyString ->
         obj_get "productionCompanies" dto = JArr [])).
Proof.
  assert (Hlist : forall r dto, is_list_dto guarded_parse r dto ->
                    no_genre_text r -> obj_get "genres" dto = JArr []).
  { intros r dto [g [Hg ->]] Hno. simpl.
    eapply guarded_parse_no_text; eauto. }
  split; [|split].
  - intros mdb y p o dtos H. apply getMoviesByYear_resolved in H.
    rewrite <- select_rows_year in H.
    eapply Forall2_impl; [|exact H]. exact Hlist.
  - intros mdb g p dtos H. apply getMoviesByGenre_resolved in H.
    rewrite <- select_rows_genre in H.
    eapply Forall2_impl; [|exact H]. exact Hlist.
  - intros mdb rdb id dto H.
    apply getDetail_resolved in H as [r [g [pc [Hr [Hg [Hpc ->]]]]]].
    exists r. split; [exact Hr|]. split.
    + intros Hno. simpl. eapply guarded_parse_no_text; eauto.
    + intros [H|H]; rewrite H in Hpc; simpl in *; congruence.
Qed.

Lemma no_genre_text_gives_empty_array_witness :
  exists dtos,
    settled (getMoviesByYear damaged_moviesDb "2007" 1 asc) = Resolved dtos /\
    Forall2 (fun r dto => no_genre_text r -> obj_get "genres" dto = JArr [])
      (select_rows damaged_movies (year_statement "2007" asc 1)) dtos.
Proof.
  eexists. split; [vm_compute; reflexivity|].
  apply (proj1 no_genre_text_gives_empty_array damaged_moviesDb "2007" 1 asc).
  vm_compute. reflexivity.
Defined.

(** X4. The full listing has no such guard for the empty text: a page
    that holds a record whose genre text is empty, and whose other texts
    can be read, ends with the uncaught SyntaxError of the empty text. *)
Theorem empty_genre_text_fails_full_listing (mdb : MoviesDb) (p : Z) :
  movies_fault mdb (page_statement p) = None ->
  Exists (fun r => genres r = Some EmptyString)
    (select_rows (movies mdb) (page_statement p)) ->
  Forall (fun r => genres r = Some EmptyString \/
                   exists g, unguarded_parse (genres r) = inr g)
    (select_rows (movies mdb) (page_statement p)) ->
  settled (getPaginatedMovies mdb p) = Uncaught (SyntaxError EmptyString).
Proof.
  intros Hf Hex Hall.
  assert (Hempty : unguarded_parse (Some EmptyString)
                   = inl (SyntaxError EmptyString)) by reflexivity.
  destruct (list_op_unreadable mdb (page_statement p) page_item
              unguarded_parse page_item_row eq_refl Hf)
    as [r [e [Hr [He Hs]]]].
  - eapply Exists_impl; [|exact Hex].
    intros r Hr. exists (SyntaxError EmptyString). now rewrite Hr.
  - rewrite Forall_forall in Hall. destruct (Hall r Hr) as [H|[g H]].
    + rewrite H, Hempty in He. injection He as <-. exact Hs.
    + congruence.
Qed.

Lemma empty_genre_text_fails_full_listing_witness :
  settled (getPaginatedMovies
             {| movies := [sample_row 6 "tt0000006" None None (Some EmptyString)];
                movies_fault := no_fault; movies_fit := eq_refl |} 1)
  = Uncaught (SyntaxError EmptyString).
Proof.
  apply empty_genre_text_fails_full_listing.
  - reflexivity.
  - apply Exists_cons_hd. reflexivity.
  - repeat constructor.
Defined.

(** ** Pages *)

Lemma firstn_skipn_next {A} (k : nat) (l : list A) :
  (firstn 50 (skipn k l) ++ firstn 50 (skipn (50 + k) l))%list
  = firstn 100 (skipn k l).
Proof.
  rewrite <- (skipn_skipn 50 k l).
  generalize (skipn k l). clear l. intros l.
  rewrite <- (firstn_skipn 50 l) at 3.
  destruct (Nat.le_gt_cases 50 (List.length l)) as [H|H].
  - replace 100%nat with (List.length (firstn 50 l) + 50)%nat
      by (rewrite length_firstn; lia).
    now rewrite firstn_app_2.
  - rewrite (skipn_all2 l) by lia. rewrite !app_nil_r.
    rewrite !firstn_all2; try reflexivity; rewrite ?length_firstn; lia.
Qed.

Lemma limit_offset_next {A} (p : Z) (l : list A) :
  1 <= p ->
  (limit_offset 50 ((p - 1) * 50) l
   ++ limit_offset 50 ((p + 1 - 1) * 50) l)%list
  = firstn 100 (skipn (50 * (Z.to_nat p - 1)) l).
Proof.
  intros Hp. rewrite !limit_offset_page.
  replace (Z.to_nat ((p - 1) * 50)) with (50 * (Z.to_nat p - 1))%nat by lia.
  replace (Z.to_nat ((p + 1 - 1) * 50))
    with (50 + 50 * (Z.to_nat p - 1))%nat by lia.
  apply firstn_skipn_next.
Qed.

(** X5. Consecutive pages neither skip nor repeat a record: when the
    pages [p] and [p + 1] of a listing both resolve, their items, one
    after the other, are the items of the 100 rows from row
    [50 * (p - 1)] on, of the table for the full listing, of the sorted
    matches for the year, of the matches for the genre. *)
Theorem consecutive_pages_are_adjacent (mdb : MoviesDb) (p : Z) :
  1 <= p ->
  (forall d1 d2,
      settled (getPaginatedMovies mdb p) = Resolved d1 ->
      settled (getPaginatedMovies mdb (p + 1)) = Resolved d2 ->
      Forall2 (is_list_dto unguarded_parse)
        (firstn 100 (skipn (50 * (Z.to_nat p - 1)) (movies mdb)))
        (d1 ++ d2)%list) /\
  (forall y o d1 d2,
      settled (getMoviesByYear mdb y p o) = Resolved d1 ->
      settled (getMoviesByYear mdb y (p + 1) o) = Resolved d2 ->
      Forall2 (is_list_dto guarded_parse)
        (firstn 100
           (skipn (50 * (Z.to_nat p - 1))
              (order_by (date_le o) (filter (year_matches y) (movies mdb)))))
        (d1 ++ d2)%list) /\
  (forall g d1 d2,
      settled (getMoviesByGenre mdb g p) = Resolved d1 ->
      settled (getMoviesByGenre mdb g (p + 1)) = Resolved d2 ->
      Forall2 (is_list_dto guarded_parse)
        (firstn 100
           (skipn (50 * (Z.to_nat p - 1))
              (filter (fun r => like_column ("%" ++ g ++ "%") (genres r))
                 (movies mdb))))
        (d1 ++ d2)%list).
Proof.
  intros Hp. split; [|split].
  - intros d1 d2 H1 H2.
    apply getPaginatedMovies_resolved in H1, H2. simpl select_rows in H1, H2.
    rewrite <- (limit_offset_next p _ Hp). now apply Forall2_app.
  - intros y o d1 d2 H1 H2.
    apply getMoviesByYear_resolved in H1, H2. simpl select_rows in H1, H2.
    rewrite <- (limit_offset_next p _ Hp). now apply Forall2_app.
  - intros g d1 d2 H1 H2.
    apply getMoviesByGenre_resolved in H1, H2. simpl select_rows in H1, H2.
    rewrite <- (limit_offset_next p _ Hp). now apply Forall2_app.
Qed.

Lemma consecutive_pages_are_adjacent_witness :
  exists d1 d2,
    settled (getPaginatedMovies sample_moviesDb 1) = Resolved d1 /\
    settled (getPaginatedMovies sample_moviesDb 2) = Resolved d2 /\
    Forall2 (is_list_dto unguarded_parse) sample_movies (d1 ++ d2)%list.
Proof.
  do 2 eexists. split; [vm_compute; reflexivity|].
  split; [vm_compute; reflexivity|].
  apply (proj1 (consecutive_pages_are_adjacent sample_moviesDb 1 ltac:(lia)));
    vm_compute; reflexivity.
Defined.

(** X6. For a page [p >= 1] of the full listing that the store answers:
    the call resolves with no item exactly when the table has at most
    [50 * (p - 1)] rows. *)
Theorem page_past_the_end_is_empty (mdb : MoviesDb) (p : Z) :
  1 <= p ->
  movies_fault mdb (page_statement p) = None ->
  settled (getPaginatedMovies mdb p) = Resolved []
  <-> (List.length (movies mdb) <= 50 * (Z.to_nat p - 1))%nat.
Proof.
  intros Hp Hf. split.
  - intros H. apply getPaginatedMovies_resolved in H.
    simpl select_rows in H. rewrite limit_offset_page in H.
    replace (Z.to_nat ((p - 1) * 50)) with (50 * (Z.to_nat p - 1))%nat in H
      by lia.
    apply Forall2_length in H.
    rewrite length_firstn, length_skipn in H.
    change (List.length (@nil JsObject)) with 0%nat in H.
    destruct (Nat.min_spec 50 (List.length (movies mdb) - 50 * (Z.to_nat p - 1)))
      as [[_ E]|[_ E]]; rewrite E in H; lia.
  - intros Hlen. rewrite getPaginatedMovies_list_op.
    rewrite (list_op_answer _ _ _ Hf). unfold answer_all.
    rewrite select_rows_page. simpl select_rows. rewrite limit_offset_page.
    rewrite skipn_all2 by lia. reflexivity.
Qed.

Lemma page_past_the_end_is_empty_witness :
  settled (getPaginatedMovies sample_moviesDb 2) = Resolved [].
Proof.
  apply (page_past_the_end_is_empty sample_moviesDb 2);
    [lia|reflexivity|simpl; lia].
Defined.

Lemma limit_offset_not_positive {A} (offset : Z) (l : list A) :
  offset <= 0 -> limit_offset 50 offset l = limit_offset 50 0 l.
Proof.
  intros H. rewrite !limit_offset_page.
  replace (Z.to_nat offset) with 0%nat by lia. reflexivity.
Qed.

(** X7. A page number below 1 is not refused: SQLite reads the negative
    OFFSET as 0, so each list operation, when the store answers both
    statements, ends for [p <= 1] exactly as it ends for page 1. *)
Theorem page_below_one_is_page_one (mdb : MoviesDb) (p : Z) :
  p <= 1 ->
  (movies_fault mdb (page_statement p) = None ->
   movies_fault mdb (page_statement 1) = None ->
   settled (getPaginatedMovies mdb p) = settled (getPaginatedMovies mdb 1)) /\
  (forall y o,
     movies_fault mdb (year_statement y o p) = None ->
     movies_fault mdb (year_statement y o 1) = None ->
     settled (getMoviesByYear mdb y p o) = settled (getMoviesByYear mdb y 1 o)) /\
  (forall g,
     movies_fault mdb (genre_statement g p) = None ->
     movies_fault mdb (genre_statement g 1) = None ->
     settled (getMoviesByGenre mdb g p) = settled (getMoviesByGenre mdb g 1)).
Proof.
  intros Hp. split; [|split].
  - intros Hf H1.
    rewrite !getPaginatedMovies_list_op, !list_op_answer by assumption.
    unfold answer_all. rewrite !select_rows_page. simpl.
    now rewrite (limit_offset_not_positive ((p - 1) * 50)) by lia.
  - intros y o Hf H1.
    rewrite !getMoviesByYear_list_op, !list_op_answer by assumption.
    unfold answer_all. rewrite !select_rows_year. simpl.
    now rewrite (limit_offset_not_positive ((p - 1) * 50)) by lia.
  - intros g Hf H1.
    rewrite !getMoviesByGenre_list_op, !list_op_answer by assumption.
    unfold answer_all. rewrite !select_rows_genre.
    simpl columns. simpl select_rows.
    now rewrite (limit_offset_not_positive ((p - 1) * 50)) by lia.
Qed.

Lemma page_below_one_is_page_one_witness :
  settled (getPaginatedMovies sample_moviesDb (-3))
  = settled (getPaginatedMovies sample_moviesDb 1).
Proof.
  apply (proj1 (page_below_one_is_page_one sample_moviesDb (-3) ltac:(lia)));
    reflexivity.
Defined.

(** ** The two reads of the detail *)

(** X8. [getMovieDetailsByImdbId] issues the catalog lookup first and
    always; it issues the rating statement second, with the internal id
    of the record found, exactly when the catalog store answered and a
    record was found; it never issues a third statement. *)
Theorem detail_reads_in_sequence (mdb : MoviesDb) (rdb : RatingsDb)
    (id : string) :
  issued (getMovieDetailsByImdbId mdb rdb id)
  = OnMovies (SelectByImdbId id)
      :: match movies_fault mdb (SelectByImdbId id), catalog_record mdb id with
         | None, Some r => [OnRatings (SelectAvgRating (JInt (movieId r)))]
         | _, _ => []
         end.
Proof.
  destruct (movies_fault mdb (SelectByImdbId id)) as [e|] eqn:Hf.
  { now rewrite (getDetail_catalog_fault _ _ _ _ Hf). }
  destruct (catalog_record mdb id) as [r|] eqn:Hr.
  2:{ now rewrite (getDetail_not_found _ _ _ Hf Hr). }
  destruct (ratings_fault rdb (SelectAvgRating (JInt (movieId r)))) as [e|] eqn:Hq.
  - now rewrite (getDetail_rating_fault _ _ _ _ _ Hf Hr Hq).
  - now rewrite (getDetail_found _ _ _ _ Hf Hr Hq).
Qed.

(** ** The year *)





(** ** The genre made of wildcards *)

Lemma like_percents (g t : string) :
  only_percent g = true -> patternCompare (g ++ "%") t = true.
Proof.
  induction g as [|c g IH]; simpl; intros H.
  - apply like_percent_only.
  - apply andb_true_iff in H as [Hc Hg]. apply Ascii.eqb_eq in Hc. subst c.
    apply like_percent. exists EmptyString, t. auto.
Qed.

Lemma only_percent_nul_free (g : string) :
  only_percent g = true -> nul_free g = true.
Proof.
  induction g as [|c g IH]; simpl; [reflexivity|].
  intros H. apply andb_true_iff in H as [Hc Hg].
  apply Ascii.eqb_eq in Hc. subst c. now rewrite IH.
Qed.

Lemma like_only_percent (g t : string) :
  only_percent g = true -> like ("%" ++ g ++ "%") t = true.
Proof.
  intros Hg. unfold like.
  rewrite (upto_nul_free ("%" ++ g ++ "%"))
    by (simpl; rewrite nul_free_app, (only_percent_nul_free g Hg);
        reflexivity).
  change ("%" ++ g ++ "%") with (String "%" (g ++ "%")).
  apply like_percent. exists EmptyString, (upto_nul t).
  split; [reflexivity|]. now apply like_percents.
Qed.

(** X10. The genre is not escaped: for a genre made of [%] characters
    only, the empty genre included, [getMoviesByGenre] selects every
    record that has a genre text, and a resolved call returns the items
    of a page of all those records. *)
Theorem wildcard_genre_matches_every_text (mdb : MoviesDb) (g : string) (p : Z) :
  only_percent g = true ->
  forall dtos,
    settled (getMoviesByGenre mdb g p) = Resolved dtos ->
    Forall2 (is_list_dto guarded_parse)
      (firstn 50
         (skipn (Z.to_nat ((p - 1) * 50)) (filter has_genre_text (movies mdb))))
      dtos.
Proof.
  intros Hg dtos H. apply getMoviesByGenre_resolved in H.
  simpl select_rows in H. rewrite limit_offset_page in H.
  erewrite filter_ext in H; [exact H|].
  intros r. unfold like_column, has_genre_text.
  destruct (genres r) as [t|]; [|reflexivity].
  now apply like_only_percent.
Qed.

Lemma wildcard_genre_matches_every_text_witness :
  exists dtos,
    settled (getMoviesByGenre sample_moviesDb "%" 1) = Resolved dtos /\
    Forall2 (is_list_dto guarded_parse)
      (filter has_genre_text sample_movies) dtos.
Proof.
  eexists. split; [vm_compute; reflexivity|].
  apply (wildcard_genre_matches_every_text sample_moviesDb "%" 1 eq_refl).
  vm_compute. reflexivity.
Defined.

(** ** The accuracy of the average rating *)






(** * Properties of the HTTP layer *)

(** ** Reading the page number *)









Lemma no_page_number_is_one (v : JsVal) :
  no_page_number v -> or_one (parseInt v) = 1.
Proof.
  intros [->|[->|[->|[c [s [-> Hc]]]]]]; try reflexivity.
  unfold parseInt. simpl ToString.
  assert (H : parseInt_text (String c s) = None); [|now rewrite H].
  destruct c as [[] [] [] [] [] [] [] []]; try discriminate;
    destruct s; reflexivity.
Qed.

(** ** The frame of the handlers *)

Section TryAwait.

Context {A : Type} (service : Run A) (body : A -> Controller.Act)
  (label message : string) (res : Controller.Response).

Lemma try_await_statements :
  Controller.statements (Controller.try_await service body label message res)
  = issued service.
Proof.
  unfold Controller.try_await, Controller.seq, Controller.status, Controller.json.
  destruct service as [log [x|e|e]]; simpl.
  - destruct (body x res) as [res' [err|]]; [|reflexivity].
    destruct (Controller.sent res'); reflexivity.
  - destruct (Controller.sent res); reflexivity.
  - reflexivity.
Qed.

Lemma try_await_rejected (e : JsError) :
  fresh res -> settled service = Rejected e ->
  Controller.try_await service body label message res
  = {| Controller.statements := issued service;
       Controller.response :=
         {| Controller.statusCode := 500;
            Controller.sent := Some (500, error_body message) |};
       Controller.console := [(label, Controller.ServiceError e)];
       Controller.completion := Controller.Returned |}.
Proof.
  unfold fresh, Controller.try_await. destruct service as [log end_]. simpl.
  intros Hres ->. unfold Controller.seq, Controller.status, Controller.json.
  simpl. rewrite Hres. reflexivity.
Qed.

Lemma try_await_uncaught (e : JsError) :
  settled service = Uncaught e ->
  Controller.try_await service body label message res
  = {| Controller.statements := issued service;
       Controller.response := res;
       Controller.console := [];
       Controller.completion := Controller.Pending |}.
Proof.
  unfold Controller.try_await. destruct service as [log end_]. simpl.
  intros ->. reflexivity.
Qed.

Lemma try_await_sent (x : A) (v : JsVal) :
  fresh res -> settled service = Resolved x ->
  body x = Controller.json v ->
  Controller.try_await service body label message res
  = {| Controller.statements := issued service;
       Controller.response :=
         {| Controller.statusCode := Controller.statusCode res;
            Controller.sent := Some (Controller.statusCode res, v) |};
       Controller.console := [];
       Controller.completion := Controller.Returned |}.
Proof.
  unfold fresh, Controller.try_await. destruct service as [log end_]. simpl.
  intros Hres -> ->. unfold Controller.json. rewrite Hres. reflexivity.
Qed.

End TryAwait.



(** X13. A page parameter that is absent, [0], empty or a text that
    begins with a letter is read as page 1 by the handlers of the full
    listing and of the genre listing, and a resolved full listing is
    answered with [page: 1]. *)
Theorem missing_page_number_is_page_one (mdb : MoviesDb) (param : string)
    (q : JsObject) (res : Controller.Response) :
  no_page_number (obj_get "page" q) ->
  Controller.statements (Controller.listAllMovies mdb (request param q) res)
  = [OnMovies (page_statement 1)] /\
  Controller.statements (Controller.getMoviesByGenre mdb (request param q) res)
  = [OnMovies (genre_statement param 1)] /\
  (forall dtos,
      fresh res ->
      settled (getPaginatedMovies mdb 1) = Resolved dtos ->
      Controller.sent
        (Controller.response (Controller.listAllMovies mdb (request param q) res))
      = Some (Controller.statusCode res, Controller.page_body 1 dtos)).
Proof.
  intros Hq. apply no_page_number_is_one in Hq.
  unfold Controller.listAllMovies, Controller.getMoviesByGenre.
  simpl Controller.query. simpl Controller.params. rewrite Hq.
  split; [|split].
  - rewrite try_await_statements, getPaginatedMovies_list_op.
    apply list_op_issued.
  - rewrite try_await_statements. unfold getMoviesByGenreService.
    rewrite getMoviesByGenre_list_op. apply list_op_issued.
  - intros dtos Hres Hd.
    rewrite (try_await_sent _ _ _ _ _ dtos (Controller.page_body 1 dtos) Hres Hd)
      by reflexivity.
    reflexivity.
Qed.

Lemma missing_page_number_is_page_one_witness :
  Controller.statements
    (Controller.listAllMovies sample_moviesDb
       (request EmptyString [("page", JStr "two")]) new_response)
  = [OnMovies (page_statement 1)].
Proof.
  apply (missing_page_number_is_page_one sample_moviesDb EmptyString
           [("page", JStr "two")] new_response).
  right. right. right. exists "t"%char, "wo". split; reflexivity.
Defined.

(** ** The sort order *)

Lemma lower_char_d (c : ascii) : Ascii.eqb (lower_char c) "d" = like_char "d" c.
Proof. destruct c as [[] [] [] [] [] [] [] []]; reflexivity. Qed.

Lemma lower_char_e (c : ascii) : Ascii.eqb (lower_char c) "e" = like_char "e" c.
Proof. destruct c as [[] [] [] [] [] [] [] []]; reflexivity. Qed.

Lemma lower_char_s (c : ascii) : Ascii.eqb (lower_char c) "s" = like_char "s" c.
Proof. destruct c as [[] [] [] [] [] [] [] []]; reflexivity. Qed.

Lemma lower_char_c (c : ascii) : Ascii.eqb (lower_char c) "c" = like_char "c" c.
Proof. destruct c as [[] [] [] [] [] [] [] []]; reflexivity. Qed.

Lemma toLowerCase_desc (s : string) :
  String.eqb (toLowerCase s) "desc" = same_nocase "desc" s.
Proof.
  destruct s as [|c1 [|c2 [|c3 [|c4 [|c5 r]]]]];
    cbn [toLowerCase String.eqb same_nocase];
    rewrite ?lower_char_d, ?lower_char_e, ?lower_char_s, ?lower_char_c,
      ?like_char_same_letter;
    repeat match goal with
           | |- context [same_letter ?p ?c] => destruct (same_letter p c)
           end;
    reflexivity.
Qed.

(** The year handler, for a sort value that is missing or a text. *)
Lemma listMoviesByYear_try_await (mdb : MoviesDb) (req : Controller.Request)
    (res : Controller.Response) :
  ~ not_a_text (obj_get "sort" (Controller.query req)) ->
  Controller.listMoviesByYear mdb req res
  = let page := or_one (parseInt (obj_get "page" (Controller.query req))) in
    Controller.try_await
      (getMoviesByYear mdb (Controller.params req "year") page
         (sort_of_value (obj_get "sort" (Controller.query req))))
      (fun movies => Controller.json (Controller.page_body page movies))
      "Error fetching movies by year:" "Failed to fetch movies by year" res.
Proof.
  unfold Controller.listMoviesByYear.
  destruct (obj_get "sort" (Controller.query req)) as [| | | |s| |];
    simpl; try tauto; intros _; try reflexivity.
  unfold sort_of_text. now rewrite toLowerCase_desc.
Qed.



(** ** Store failures at the HTTP layer *)

(** X14. On a fresh response, the failure of the statement that a
    handler issues is answered with status 500 and the fixed message of
    the handler, the store's error going to the console only: for the
    three list handlers when the catalog store fails their statement (the
    page value being one whose conversion to a string does not throw,
    and the sort value missing or a text), and for the detail handler
    when the catalog lookup fails or, the record being found, the rating
    lookup fails. *)
Theorem store_failure_is_answered_with_500 (mdb : MoviesDb) (rdb : RatingsDb)
    (req : Controller.Request) (res : Controller.Response) (e : JsError) :
  fresh res ->
  let page := or_one (parseInt (obj_get "page" (Controller.query req))) in
  let sort := obj_get "sort" (Controller.query req) in
  (converts (obj_get "page" (Controller.query req)) = true ->
   (movies_fault mdb (page_statement page) = Some e ->
    answered_500 "Error fetching movies:" "Internal Server Error" e
      (Controller.listAllMovies mdb req res)) /\
   (movies_fault mdb (genre_statement (Controller.params req "genre") page)
    = Some e ->
    answered_500 "Error fetching movies by genre:"
      "Failed to fetch movies by genre" e
      (Controller.getMoviesByGenre mdb req res)) /\
   (~ not_a_text sort ->
    movies_fault mdb
      (year_statement (Controller.params req "year") (sort_of_value sort) page)
    = Some e ->
    answered_500 "Error fetching movies by year:"
      "Failed to fetch movies by year" e
      (Controller.listMoviesByYear mdb req res))) /\
  (movies_fault mdb (SelectByImdbId (Controller.params req "imdbId")) = Some e ->
   answered_500 "Error fetching movie details:"
     "Failed to fetch movie details" e
     (Controller.getMovieDetailsByImdbId mdb rdb req res)) /\
  (forall r,
     movies_fault mdb (SelectByImdbId (Controller.params req "imdbId")) = None ->
     catalog_record mdb (Controller.params req "imdbId") = Some r ->
     ratings_fault rdb (SelectAvgRating (JInt (movieId r))) = Some e ->
     answered_500 "Error fetching movie details:"
       "Failed to fetch movie details" e
       (Controller.getMovieDetailsByImdbId mdb rdb req res)).
Proof.
  intros Hres page sort.
  assert (Hrej : forall A (service : Run A) body label message,
             settled service = Rejected e ->
             answered_500 label message e
               (Controller.try_await service body label message res)).
  { intros A service body label message Hs.
    rewrite (try_await_rejected _ _ _ _ _ e Hres Hs). repeat split. }
  split; [|split].
  - intros _. split; [|split].
    + intros Hf. apply Hrej. rewrite getPaginatedMovies_list_op.
      now apply list_op_fault.
    + intros Hf. apply Hrej. unfold getMoviesByGenreService.
      rewrite getMoviesByGenre_list_op. now apply list_op_fault.
    + intros Hsort Hf. rewrite (listMoviesByYear_try_await _ _ _ Hsort).
      apply Hrej. rewrite getMoviesByYear_list_op. now apply list_op_fault.
  - intros Hf. apply Hrej. unfold getMovieDetailsByImdbIdService.
    now rewrite (getDetail_catalog_fault _ _ _ e).
  - intros r Hf Hr Hq. apply Hrej. unfold getMovieDetailsByImdbIdService.
    now rewrite (getDetail_rating_fault _ _ _ r e).
Qed.

Lemma store_failure_is_answered_with_500_witness :
  answered_500 "Error fetching movies by year:" "Failed to fetch movies by year"
    (StoreError "DB error")
    (Controller.listMoviesByYear broken_moviesDb
       (request "2005" [("page", JStr "3"); ("sort", JStr "DESC")])
       new_response) /\
  answered_500 "Error fetching movie details:" "Failed to fetch movie details"
    (StoreError "Rating DB error")
    (Controller.getMovieDetailsByImdbId sample_moviesDb broken_ratingsDb
       (request "tt0000001" []) new_response).
Proof.
  split.
  - apply (proj1 (store_failure_is_answered_with_500 broken_moviesDb
                    sample_ratingsDb
                    (request "2005" [("page", JStr "3"); ("sort", JStr "DESC")])
                    new_response (StoreError "DB error") eq_refl) eq_refl).
    + simpl. tauto.
    + reflexivity.
  - apply (proj2 (proj2 (store_failure_is_answered_with_500 sample_moviesDb
                    broken_ratingsDb (request "tt0000001" []) new_response
                    (StoreError "Rating DB error") eq_refl))
             (sample_row 1 "tt0000001" (Some "2005-03-01") (Some 0)
                (Some (dq "[{'id':18,'name':'Drama'}]"))));
      reflexivity.
Defined.

(** ** The detail handler *)

(** X15. For an id that no record has, on a fresh response and with the
    catalog store answering, the detail handler sends 404 with
    [{ error: 'Movie not found' }] and does not return there: it calls
    [res.json(movie)] on the response already sent, which throws; the
    [catch] block logs that, sets status 500 and throws in turn, so the
    handler ends by throwing, with the 404 the one response sent. *)
Theorem unknown_id_sends_404_then_throws (mdb : MoviesDb) (rdb : RatingsDb)
    (req : Controller.Request) (res : Controller.Response) :
  fresh res ->
  movies_fault mdb (SelectByImdbId (Controller.params req "imdbId")) = None ->
  catalog_record mdb (Controller.params req "imdbId") = None ->
  Controller.getMovieDetailsByImdbId mdb rdb req res
  = {| Controller.statements :=
         [OnMovies (SelectByImdbId (Controller.params req "imdbId"))];
       Controller.response :=
         {| Controller.statusCode := 500;
            Controller.sent := Some (404, error_body "Movie not found") |};
       Controller.console :=
         [("Error fetching movie details:", Controller.HeadersSent)];
       Controller.completion := Controller.Threw Controller.HeadersSent |}.
Proof.
  unfold fresh. intros Hres Hf Hr.
  unfold Controller.getMovieDetailsByImdbId, getMovieDetailsByImdbIdService.
  rewrite (getDetail_not_found mdb rdb _ Hf Hr).
  unfold Controller.try_await, Controller.seq, Controller.status,
    Controller.json. simpl. rewrite Hres. reflexivity.
Qed.

Lemma unknown_id_sends_404_then_throws_witness :
  Controller.sent
    (Controller.response
       (Controller.getMovieDetailsByImdbId sample_moviesDb sample_ratingsDb
          (request "tt0000000" []) new_response))
  = Some (404, error_body "Movie not found").
Proof.
  rewrite (unknown_id_sends_404_then_throws sample_moviesDb sample_ratingsDb
             (request "tt0000000" []) new_response);
    reflexivity.
Defined.

(** X16. What the service resolves with for a record that is found is
    what the detail handler sends: on a fresh response it sends that
    object with the status the response had, logs nothing and returns,
    having issued the statements of the service: the catalog lookup and
    the rating statement of the record. *)
Theorem found_record_is_sent (mdb : MoviesDb) (rdb : RatingsDb)
    (req : Controller.Request) (res : Controller.Response) (dto : JsObject) :
  fresh res ->
  settled (getMovieDetailsByImdbId mdb rdb (Controller.params req "imdbId"))
  = Resolved (Some dto) ->
  exists r,
    catalog_record mdb (Controller.params req "imdbId") = Some r /\
    Controller.getMovieDetailsByImdbId mdb rdb req res
    = {| Controller.statements :=
           [OnMovies (SelectByImdbId (Controller.params req "imdbId"));
            OnRatings (SelectAvgRating (JInt (movieId r)))];
         Controller.response :=
           {| Controller.statusCode := Controller.statusCode res;
              Controller.sent := Some (Controller.statusCode res, JObj dto) |};
         Controller.console := [];
         Controller.completion := Controller.Returned |}.
Proof.
  unfold fresh. intros Hres Hd.
  unfold Controller.getMovieDetailsByImdbId, getMovieDetailsByImdbIdService.
  set (id := Controller.params req "imdbId") in *.
  destruct (movies_fault mdb (SelectByImdbId id)) as [e|] eqn:Hf.
  { rewrite (getDetail_catalog_fault _ _ _ _ Hf) in Hd. discriminate. }
  destruct (catalog_record mdb id) as [r|] eqn:Hr.
  2:{ rewrite (getDetail_not_found _ _ _ Hf Hr) in Hd. discriminate. }
  destruct (ratings_fault rdb (SelectAvgRating (JInt (movieId r)))) as [e|] eqn:Hq.
  { rewrite (getDetail_rating_fault _ _ _ _ _ Hf Hr Hq) in Hd. discriminate. }
  exists r. split; [reflexivity|].
  rewrite (getDetail_found _ _ _ _ Hf Hr Hq) in Hd |- *.
  simpl in Hd. rewrite Hd.
  unfold Controller.try_await, Controller.seq, Controller.skip, Controller.json.
  simpl. rewrite Hres. reflexivity.
Qed.

Lemma found_record_is_sent_witness :
  exists dto,
    Controller.sent
      (Controller.response
         (Controller.getMovieDetailsByImdbId sample_moviesDb sample_ratingsDb
            (request "tt0000003" []) new_response))
    = Some (200, JObj dto) /\
    obj_get "imdbId" dto = JStr "tt0000003".
Proof.
  set (dto := match settled (getMovieDetailsByImdbId sample_moviesDb
                               sample_ratingsDb "tt0000003") with
              | Resolved (Some d) => d
              | _ => []
              end).
  assert (Hd : settled (getMovieDetailsByImdbId sample_moviesDb
                          sample_ratingsDb "tt0000003") = Resolved (Some dto))
    by (vm_compute; reflexivity).
  destruct (found_record_is_sent sample_moviesDb sample_ratingsDb
              (request "tt0000003" []) new_response dto eq_refl Hd)
    as [r [_ Hrun]].
  exists dto. rewrite Hrun. split; [reflexivity|].
  vm_compute. reflexivity.
Defined.

(** ** Requests that get no answer *)

Lemma getDetail_uncaught mdb rdb id r e :
  movies_fault mdb (SelectByImdbId id) = None ->
  catalog_record mdb id = Some r ->
  ratings_fault rdb (SelectAvgRating (JInt (movieId r))) = None ->
  guarded_parse (genres r) = inl e \/
  (exists g, guarded_parse (genres r) = inr g) /\
  guarded_parse (productionCompanies r) = inl e ->
  settled (getMovieDetailsByImdbId mdb rdb id) = Uncaught e.
Proof.
  intros Hf Hr Hq H.
  rewrite (getDetail_found _ _ _ _ Hf Hr Hq), movie_details_row.
  destruct H as [H|[[g Hg] H]].
  - rewrite H. reflexivity.
  - rewrite Hg, H. reflexivity.
Qed.

(** X18. A record that cannot be read leaves the request without any
    answer: when a row selected for the page of the full listing or of
    the genre listing has an unreadable genre text, or the record of a
    detail has an unreadable genre or production-companies text, the
    handler sends nothing, writes nothing to the console and never
    completes, its [await] waiting on a promise that is never settled.
    The page value is one whose conversion to a string does not throw,
    and the JSON texts are within the reach of the model's parser. *)
Theorem unreadable_record_leaves_request_pending (mdb : MoviesDb)
    (rdb : RatingsDb) (req : Controller.Request) (res : Controller.Response) :
  let page := or_one (parseInt (obj_get "page" (Controller.query req))) in
  (converts (obj_get "page" (Controller.query req)) = true ->
   (movies_fault mdb (page_statement page) = None ->
    Forall plain_genres (select_rows (movies mdb) (page_statement page)) ->
    Exists (unreadable unguarded_parse)
      (select_rows (movies mdb) (page_statement page)) ->
    left_pending res (Controller.listAllMovies mdb req res)) /\
   (movies_fault mdb (genre_statement (Controller.params req "genre") page)
    = None ->
    Forall plain_genres
      (select_rows (movies mdb)
         (genre_statement (Controller.params req "genre") page)) ->
    Exists (unreadable guarded_parse)
      (select_rows (movies mdb)
         (genre_statement (Controller.params req "genre") page)) ->
    left_pending res (Controller.getMoviesByGenre mdb req res))) /\
  (forall r e,
     movies_fault mdb (SelectByImdbId (Controller.params req "imdbId")) = None ->
     catalog_record mdb (Controller.params req "imdbId") = Some r ->
     ratings_fault rdb (SelectAvgRating (JInt (movieId r))) = None ->
     plain_text (genres r) -> plain_text (productionCompanies r) ->
     guarded_parse (genres r) = inl e \/
     (exists g, guarded_parse (genres r) = inr g) /\
     guarded_parse (productionCompanies r) = inl e ->
     left_pending res (Controller.getMovieDetailsByImdbId mdb rdb req res)).
Proof.
  intros page.
  assert (Hpend : forall A (service : Run A) body label message e,
             settled service = Uncaught e ->
             left_pending res
               (Controller.try_await service body label message res)).
  { intros A service body label message e Hs.
    rewrite (try_await_uncaught _ _ _ _ _ e Hs). repeat split. }
  split; [intros _; split|].
  - intros Hf _ Hex.
    destruct (list_op_unreadable mdb (page_statement page) page_item
                unguarded_parse page_item_row eq_refl Hf Hex)
      as [r [e [_ [_ Hs]]]].
    apply (Hpend _ _ _ _ _ e). exact Hs.
  - intros Hf _ Hex.
    destruct (list_op_unreadable mdb
                (genre_statement (Controller.params req "genre") page)
                genre_item guarded_parse genre_item_row eq_refl Hf Hex)
      as [r [e [_ [_ Hs]]]].
    apply (Hpend _ _ _ _ _ e). exact Hs.
  - intros r e Hf Hr Hq _ _ H.
    apply (Hpend _ _ _ _ _ e). unfold getMovieDetailsByImdbIdService.
    eapply getDetail_uncaught; eauto.
Qed.

Lemma unreadable_record_leaves_request_pending_witness :
  left_pending new_response
    (Controller.listAllMovies damaged_moviesDb (request EmptyString [])
       new_response).
Proof.
  apply (proj1 (proj1 (unreadable_record_leaves_request_pending
                         damaged_moviesDb sample_ratingsDb
                         (request EmptyString []) new_response) eq_refl)).
  - reflexivity.
  - repeat constructor.
  - apply Exists_cons_tl, Exists_cons_hd.
    eexists. vm_compute. reflexivity.
Defined.

(** ** When a handler throws *)

Lemma try_await_json_never_throws {A} (service : Run A) (v : A -> JsVal)
    (label message : string) (res : Controller.Response) (e : Controller.Thrown) :
  fresh res ->
  Controller.completion
    (Controller.try_await service (fun x => Controller.json (v x))
       label message res)
  <> Controller.Threw e.
Proof.
  unfold fresh, Controller.try_await, Controller.seq, Controller.status,
    Controller.json.
  intros Hres. destruct service as [log [x|err|err]]; simpl;
    rewrite ?Hres; simpl; discriminate.
Qed.

(** X19. On a fresh response, and for a page value whose conversion to a
    string does not throw, the handlers of the full listing and of the
    genre listing never throw, and the year handler throws exactly when
    the sort parameter is neither missing nor a text (an array or an
    object), and then before any statement is issued and with the
    response untouched.  The detail handler throws exactly when the
    service resolved with [null]. *)
Theorem when_handlers_throw (mdb : MoviesDb) (rdb : RatingsDb)
    (req : Controller.Request) (res : Controller.Response) :
  fresh res ->
  (converts (obj_get "page" (Controller.query req)) = true ->
   (forall e, Controller.completion (Controller.listAllMovies mdb req res)
              <> Controller.Threw e) /\
   (forall e, Controller.completion (Controller.getMoviesByGenre mdb req res)
              <> Controller.Threw e) /\
   ((exists e, Controller.completion (Controller.listMoviesByYear mdb req res)
               = Controller.Threw e)
    <-> not_a_text (obj_get "sort" (Controller.query req))) /\
   (not_a_text (obj_get "sort" (Controller.query req)) ->
    Controller.listMoviesByYear mdb req res
    = {| Controller.statements := [];
         Controller.response := res;
         Controller.console := [];
         Controller.completion :=
           Controller.Threw (Controller.NotAFunction "toLowerCase") |})) /\
  ((exists e, Controller.completion
                (Controller.getMovieDetailsByImdbId mdb rdb req res)
              = Controller.Threw e)
   <-> settled (getMovieDetailsByImdbId mdb rdb (Controller.params req "imdbId"))
       = Resolved None).
Proof.
  intros Hres. split; [intros _; split; [|split; [|split]]|].
  - intros e. now apply try_await_json_never_throws.
  - intros e. now apply try_await_json_never_throws.
  - unfold Controller.listMoviesByYear.
    destruct (obj_get "sort" (Controller.query req));
      simpl Controller.optional_toLowerCase; cbv iota; simpl not_a_text;
      split; try tauto; try (intros _; eexists; reflexivity);
      intros [e He]; exfalso;
      revert He; now apply try_await_json_never_throws.
  - unfold Controller.listMoviesByYear.
    destruct (obj_get "sort" (Controller.query req)); simpl; tauto.
  - unfold Controller.getMovieDetailsByImdbId, getMovieDetailsByImdbIdService.
    destruct (getMovieDetailsByImdbId mdb rdb (Controller.params req "imdbId"))
      as [log [[m|]|err|err]];
      unfold fresh in Hres;
      unfold Controller.try_await, Controller.seq, Controller.status,
        Controller.skip, Controller.json; simpl; rewrite ?Hres; simpl;
      split; try discriminate; try (intros [e He]; discriminate);
      try (intros _; eexists; reflexivity).
Qed.

Lemma when_handlers_throw_witness :
  Controller.listMoviesByYear sample_moviesDb
    (request "2005" [("sort", JArr [JStr "asc"; JStr "desc"])]) new_response
  = {| Controller.statements := [];
       Controller.response := new_response;
       Controller.console := [];
       Controller.completion :=
         Controller.Threw (Controller.NotAFunction "toLowerCase") |}.
Proof.
  apply (proj2 (proj2 (proj2 (proj1
           (when_handlers_throw sample_moviesDb sample_ratingsDb
              (request "2005" [("sort", JArr [JStr "asc"; JStr "desc"])])
              new_response eq_refl) eq_refl)))).
  exact I.
Defined.
